(** * Semantic analysis of DML statements (yb/sql/ptree/pt_dml.cc)

    A shallow embedding of [PTDmlStmt] and [WhereExprState]: table lookup,
    the analysis of the WHERE and USING clauses, and the classification of a
    write as "static columns only".

    Conventions of the embedding.
    - A method that mutates its object returns the new object next to its
      [Status]; the object is returned on failure too, since the C++ code
      writes through pointers and never rolls back.
    - A result of type [option _] is [None] exactly when the C++ code reads or
      writes a vector out of range ([at] throws, [operator[]] is undefined).
    - Sizes and indices are non-negative [int]s and are kept in [nat]; the one
      subtraction the source performs on them is carried out in [Z]. *)

From Stdlib Require Import ZArith Lia Ascii String.
From stdpp Require Import base option list strings gmap pretty.

Open Scope string_scope.
Open Scope list_scope.
Open Scope nat_scope.

(** ** Status and error codes *)

Definition YBLocation := nat.

Inductive ErrorCode :=
| SYSTEM_NAMESPACE_READONLY
| TABLE_NOT_FOUND
| CQL_STATEMENT_INVALID
| FEATURE_NOT_YET_IMPLEMENTED
| INVALID_ARGUMENTS.

(** [sem_context->Error(loc, msg, code)] and [sem_context->Error(loc, code)];
    the second overload carries no message of its own. *)
Inductive Status :=
| OK
| Error (loc : YBLocation) (msg : option string) (code : ErrorCode).

Definition ok (s : Status) : bool :=
  match s with OK => true | Error _ _ _ => false end.

(** The error kinds, as the specification names them. *)
Definition SystemNamespaceReadOnly (l : YBLocation) : Status :=
  Error l None SYSTEM_NAMESPACE_READONLY.
Definition TableNotFound (l : YBLocation) : Status :=
  Error l None TABLE_NOT_FOUND.
Definition MissingPartitionKey (l : YBLocation) : Status :=
  Error l (Some "Missing partition key") CQL_STATEMENT_INVALID.
Definition MissingKeyCondition (l : YBLocation) : Status :=
  Error l (Some "Missing condition on key columns in WHERE clause") CQL_STATEMENT_INVALID.
Definition IllogicalCondition (l : YBLocation) : Status :=
  Error l (Some "Illogical condition for where clause") CQL_STATEMENT_INVALID.
Definition NonKeyColumnInWhere (l : YBLocation) : Status :=
  Error l (Some "Non primary key cannot be used in where clause") CQL_STATEMENT_INVALID.
Definition PartitionColumnInRangeExpr (l : YBLocation) : Status :=
  Error l (Some "Partition column cannot be used in this expression") CQL_STATEMENT_INVALID.
Definition RangeNotYetSupported (l : YBLocation) : Status :=
  Error l (Some "Range expression is not yet supported") FEATURE_NOT_YET_IMPLEMENTED.
Definition IllegalRangeCondition (l : YBLocation) : Status :=
  Error l (Some "Illogical range condition") CQL_STATEMENT_INVALID.
Definition UnsupportedOperator (l : YBLocation) : Status :=
  Error l (Some "Operator is not supported in where clause") CQL_STATEMENT_INVALID.

(** ** Columns, operators and the per-column records *)

(** The tags of the type enumerations are declared outside this file. *)
Definition DataType := nat.
Definition InternalType := nat.

(** [ColumnDesc], as [Init] fills it in [LookupTable]. *)
Record ColumnDesc := {
  index : nat;
  id_ : nat;
  is_hash : bool;
  is_primary : bool;
  is_static : bool;
  sql_type : DataType;
  type_id : InternalType
}.

(** The comparison operators [AnalyzeColumnOp] names; every other tag of the
    enumeration takes the [default] branch of its switch. *)
Inductive YQLOperator :=
| YQL_OP_EQUAL
| YQL_OP_LESS_THAN
| YQL_OP_LESS_THAN_EQUAL
| YQL_OP_GREATER_THAN
| YQL_OP_GREATER_THAN_EQUAL
| YQL_OP_OTHER (tag : nat).

(** An integer constant of the parse tree: the TTL of a USING clause and the
    value operand of a comparison. [Eval] reads [const_value]. *)
Record PTConstInt := {
  const_loc : YBLocation;
  const_value : Z
}.

Definition Eval (c : PTConstInt) : Z := const_value c.

(** The relational node a comparison comes from. *)
Record PTRelationExpr := {
  rel_loc : YBLocation;
  yql_op : YQLOperator
}.

(** An initialised [ColumnOp]. A vector slot is an [option ColumnOp]: [None]
    is the default-constructed entry, for which [IsInitialized] is false. *)
Record ColumnOp := {
  desc : ColumnDesc;
  expr : PTConstInt;
  op : YQLOperator
}.

(** An initialised [ColumnArg] of [column_args_]; [None] as for [ColumnOp]. *)
Record ColumnArg := {
  arg_desc : ColumnDesc;
  arg_expr : PTConstInt
}.

Definition IsInitialized {A} (slot : option A) : bool :=
  match slot with Some _ => true | None => false end.

(** Modelled from the spec: the class ColumnOpCounter is declared in
    pt_dml.h, which is not part of the sources; the specification describes it
    as, per column, the count of EQ seen, of LT/LTE seen and of GT/GTE seen,
    all zero when an analysis pass starts. *)
Record ColumnOpCounter := {
  gt_count : nat;
  lt_count : nat;
  eq_count : nat
}.

Definition zero_counter : ColumnOpCounter :=
  {| gt_count := 0; lt_count := 0; eq_count := 0 |}.
Definition increase_gt (c : ColumnOpCounter) : ColumnOpCounter :=
  {| gt_count := S (gt_count c); lt_count := lt_count c; eq_count := eq_count c |}.
Definition increase_lt (c : ColumnOpCounter) : ColumnOpCounter :=
  {| gt_count := gt_count c; lt_count := S (lt_count c); eq_count := eq_count c |}.
Definition increase_eq (c : ColumnOpCounter) : ColumnOpCounter :=
  {| gt_count := gt_count c; lt_count := lt_count c; eq_count := S (eq_count c) |}.

(** ** WhereExprState *)

Module WhereExprState.

(** [ops_] points to the statement's [where_ops_] (a list), [key_ops_] to its
    [key_where_ops_] (a vector), [op_counters_] to the caller's counters. *)
Record t := {
  ops_ : list ColumnOp;
  key_ops_ : list (option ColumnOp);
  op_counters_ : list ColumnOpCounter;
  write_only_ : bool
}.

(** [op_counters_->at(i)] is a reference: a write to it updates the vector. *)
Definition set_counter (st : t) (i : nat) (c : ColumnOpCounter) : t :=
  {| ops_ := ops_ st;
     key_ops_ := key_ops_ st;
     op_counters_ := <[i := c]> (op_counters_ st);
     write_only_ := write_only_ st |}.

(** [ops_->push_back(col_op)] *)
Definition push_back (st : t) (col_op : ColumnOp) : t :=
  {| ops_ := ops_ st ++ [col_op];
     key_ops_ := key_ops_ st;
     op_counters_ := op_counters_ st;
     write_only_ := write_only_ st |}.

(** [Init(desc, value, op)] on entry [i] of the vector [key_ops_] points to;
    the entry is reached with [operator[]]. *)
Definition init_key_op (st : t) (i : nat) (col_op : ColumnOp) : option t :=
  if decide (i < length (key_ops_ st)) then
    Some {| ops_ := ops_ st;
            key_ops_ := <[i := Some col_op]> (key_ops_ st);
            op_counters_ := op_counters_ st;
            write_only_ := write_only_ st |}
  else None.

Definition AnalyzeColumnOp (st : t) (expr : PTRelationExpr)
    (col_desc : ColumnDesc) (value : PTConstInt) : option (Status * t) :=
  counter ← op_counters_ st !! index col_desc;
  match yql_op expr with
  | YQL_OP_EQUAL =>
      if (0 <? eq_count counter) || (0 <? gt_count counter) || (0 <? lt_count counter) then
        Some (Error (rel_loc expr) (Some "Illogical condition for where clause")
                CQL_STATEMENT_INVALID, st)
      else
        let st := set_counter st (index col_desc) (increase_eq counter) in
        if is_hash col_desc then
          st ← init_key_op st (index col_desc)
                 {| desc := col_desc; expr := value; op := YQL_OP_EQUAL |};
          Some (OK, st)
        else if is_primary col_desc then
          if write_only_ st then
            st ← init_key_op st (index col_desc)
                   {| desc := col_desc; expr := value; op := YQL_OP_EQUAL |};
            Some (OK, st)
          else
            Some (OK, push_back st
                        {| desc := col_desc; expr := value; op := YQL_OP_EQUAL |})
        else
          Some (Error (rel_loc expr) (Some "Non primary key cannot be used in where clause")
                  CQL_STATEMENT_INVALID, st)
  | YQL_OP_LESS_THAN | YQL_OP_LESS_THAN_EQUAL =>
      if is_hash col_desc then
        Some (Error (rel_loc expr) (Some "Partition column cannot be used in this expression")
                CQL_STATEMENT_INVALID, st)
      else if is_primary col_desc then
        if write_only_ st then
          Some (Error (rel_loc expr) (Some "Range expression is not yet supported")
                  FEATURE_NOT_YET_IMPLEMENTED, st)
        else if (0 <? eq_count counter) || (0 <? lt_count counter) then
          Some (Error (rel_loc expr) (Some "Illogical range condition")
                  CQL_STATEMENT_INVALID, st)
        else
          let st := set_counter st (index col_desc) (increase_lt counter) in
          Some (OK, push_back st
                      {| desc := col_desc; expr := value; op := yql_op expr |})
      else
        Some (Error (rel_loc expr) (Some "Non primary key cannot be used in where clause")
                CQL_STATEMENT_INVALID, st)
  | YQL_OP_GREATER_THAN_EQUAL | YQL_OP_GREATER_THAN =>
      if is_hash col_desc then
        Some (Error (rel_loc expr) (Some "Partition column cannot be used in this expression")
                CQL_STATEMENT_INVALID, st)
      else if is_primary col_desc then
        if write_only_ st then
          Some (Error (rel_loc expr) (Some "Range expression is not yet supported")
                  FEATURE_NOT_YET_IMPLEMENTED, st)
        else if (0 <? eq_count counter) || (0 <? gt_count counter) then
          Some (Error (rel_loc expr) (Some "Illogical range condition")
                  CQL_STATEMENT_INVALID, st)
        else
          let st := set_counter st (index col_desc) (increase_gt counter) in
          Some (OK, push_back st
                      {| desc := col_desc; expr := value; op := yql_op expr |})
      else
        Some (Error (rel_loc expr) (Some "Non primary key cannot be used in where clause")
                CQL_STATEMENT_INVALID, st)
  | YQL_OP_OTHER _ =>
      Some (Error (rel_loc expr) (Some "Operator is not supported in where clause")
              CQL_STATEMENT_INVALID, st)
  end.

End WhereExprState.

(** ** The expression tree of a WHERE clause *)

(** Modelled from the spec: PTExpr::Analyze, the walk of the expression tree,
    is implemented outside the sources of this file. The specification gives
    the tree as a conjunction of simple comparisons, walked recursively,
    left to right and depth first; each leaf comparison (column descriptor,
    operator, bound value) is handed to [AnalyzeColumnOp], and the first error
    aborts the walk. *)
Inductive PTExpr :=
| PTRelation (rel : PTRelationExpr) (col_desc : ColumnDesc) (value : PTConstInt)
| PTLogicAnd (l : YBLocation) (lhs rhs : PTExpr).

Definition PTExpr_loc (e : PTExpr) : YBLocation :=
  match e with
  | PTRelation rel _ _ => rel_loc rel
  | PTLogicAnd l _ _ => l
  end.

Fixpoint PTExpr_Analyze (e : PTExpr) (st : WhereExprState.t)
    : option (Status * WhereExprState.t) :=
  match e with
  | PTRelation rel col_desc value =>
      WhereExprState.AnalyzeColumnOp st rel col_desc value
  | PTLogicAnd _ lhs rhs =>
      match PTExpr_Analyze lhs st with
      | Some (OK, st) => PTExpr_Analyze rhs st
      | failed => failed
      end
  end.

(** ** Table names, schemas and the semantic context *)

Record YBTableName := {
  namespace_name : option string;
  table_name : string
}.

Definition has_namespace (n : YBTableName) : bool :=
  match namespace_name n with Some _ => true | None => false end.

Definition set_namespace_name (n : YBTableName) (ns : string) : YBTableName :=
  {| namespace_name := Some ns; table_name := table_name n |}.

Record YBColumnSchema := {
  col_name : string;
  col_type : DataType;
  col_is_static : bool
}.

(** Entry [idx] of [columns] pairs [schema.Column(idx)] with
    [schema.ColumnId(idx)]. *)
Record YBSchema := {
  columns : list (YBColumnSchema * nat);
  num_key_columns : nat;
  num_hash_key_columns : nat
}.

Record YBTable := {
  schema : YBSchema
}.

(** What [LookupTable] reads from and writes to the semantic context: the
    current keyspace, the catalog and the symbol table. *)
Record SemContext := {
  CurrentKeyspace : string;
  GetTableDesc : YBTableName → option YBTable;
  symtab : gmap string ColumnDesc
}.

(** ** TTL bounds *)

(** Modelled from the spec: kMinTtlSeconds, kMaxTtlSeconds and
    IsValidTTLSeconds are declared in yb/common/table_properties_constants.h,
    which is not part of the sources. The specification gives the bounds
    [0, 630720000] and the check "lies in [minTtlSeconds, maxTtlSeconds]". *)
Definition kMinTtlSeconds : Z := 0.
Definition kMaxTtlSeconds : Z := 630720000.
Definition IsValidTTLSeconds (ttl_seconds : Z) : bool :=
  (kMinTtlSeconds <=? ttl_seconds)%Z && (ttl_seconds <=? kMaxTtlSeconds)%Z.

Definition digit_of (a : ascii) : option nat :=
  let n := nat_of_ascii a in
  if (48 <=? n) && (n <=? 57) then Some (n - 48) else None.

(** [strings::Substitute]: ["$i"] in the format is replaced by argument [i]. *)
Fixpoint Substitute (format : string) (args : list string) : string :=
  match format with
  | EmptyString => EmptyString
  | String c rest =>
      match rest with
      | String d rest' =>
          match (if Ascii.eqb c "$" then digit_of d else None) with
          | Some i => default EmptyString (args !! i) +:+ Substitute rest' args
          | None => String c (Substitute rest args)
          end
      | EmptyString => String c EmptyString
      end
  end.

(** ** Loops over vectors *)

(** [for (idx = lo; idx < lo + n; idx++) if (p(v[idx])) { ...; break; }]:
    whether the loop body fired. The loops that return from inside the body
    have the same shape. *)
Fixpoint any_from {A} (p : A → bool) (v : list A) (lo n : nat) : option bool :=
  match n with
  | 0 => Some false
  | S n =>
      x ← v !! lo;
      if p x then Some true else any_from p v (S lo) n
  end.

(** [for (idx = lo; idx < lo + n; idx++) if (p(v[idx])) count++;] *)
Fixpoint count_from {A} (p : A → bool) (v : list A) (lo n : nat) (count : nat)
    : option nat :=
  match n with
  | 0 => Some count
  | S n =>
      x ← v !! lo;
      count_from p v (S lo) n (if p x then S count else count)
  end.

(** [for (idx = n - 1; idx >= 0; idx--)
       if (key_ops[idx].IsInitialized()) ops.push_front(key_ops[idx]);] *)
Fixpoint push_front_filled (key_ops : list (option ColumnOp)) (n : nat)
    (ops : list ColumnOp) : option (list ColumnOp) :=
  match n with
  | 0 => Some ops
  | S idx =>
      slot ← key_ops !! idx;
      match slot with
      | Some col_op => push_front_filled key_ops idx (col_op :: ops)
      | None => push_front_filled key_ops idx ops
      end
  end.

(** The second loop of [StaticColumnArgsOnly], from index [idx] over [n]
    entries, with its two flags and its [break]. *)
Fixpoint static_scan (column_args : list (option ColumnArg)) (idx n : nat)
    (write_static_columns write_non_static_columns : bool) : option (bool * bool) :=
  match n with
  | 0 => Some (write_static_columns, write_non_static_columns)
  | S n =>
      slot ← column_args !! idx;
      match slot with
      | Some arg =>
          let write_static_columns :=
            if is_static (arg_desc arg) then true else write_static_columns in
          let write_non_static_columns :=
            if is_static (arg_desc arg) then write_non_static_columns else true in
          if write_static_columns && write_non_static_columns then
            Some (write_static_columns, write_non_static_columns)
          else
            static_scan column_args (S idx) n write_static_columns write_non_static_columns
      | None =>
          static_scan column_args (S idx) n write_static_columns write_non_static_columns
      end
  end.

(** ** PTDmlStmt *)

Module PTDmlStmt.

(** [column_args_] is a shared pointer: [None] is [nullptr]. An entry of
    [table_columns_] is [None] until [Init] has run on it. *)
Record t := {
  name_ : YBTableName;
  table_loc_ : YBLocation;
  loc_ : YBLocation;
  is_system_ : bool;
  table_ : option YBTable;
  table_columns_ : list (option ColumnDesc);
  num_key_columns_ : nat;
  num_hash_key_columns_ : nat;
  key_where_ops_ : list (option ColumnOp);
  where_ops_ : list ColumnOp;
  write_only_ : bool;
  ttl_seconds_ : option PTConstInt;
  column_args_ : option (list (option ColumnArg))
}.

Definition num_columns (s : t) : nat := length (table_columns_ s).

Definition set_is_system (s : t) (b : bool) : t :=
  {| name_ := name_ s; table_loc_ := table_loc_ s; loc_ := loc_ s;
     is_system_ := b; table_ := table_ s;
     table_columns_ := table_columns_ s;
     num_key_columns_ := num_key_columns_ s;
     num_hash_key_columns_ := num_hash_key_columns_ s;
     key_where_ops_ := key_where_ops_ s; where_ops_ := where_ops_ s;
     write_only_ := write_only_ s; ttl_seconds_ := ttl_seconds_ s;
     column_args_ := column_args_ s |}.

Definition set_table (s : t) (tbl : option YBTable) : t :=
  {| name_ := name_ s; table_loc_ := table_loc_ s; loc_ := loc_ s;
     is_system_ := is_system_ s; table_ := tbl;
     table_columns_ := table_columns_ s;
     num_key_columns_ := num_key_columns_ s;
     num_hash_key_columns_ := num_hash_key_columns_ s;
     key_where_ops_ := key_where_ops_ s; where_ops_ := where_ops_ s;
     write_only_ := write_only_ s; ttl_seconds_ := ttl_seconds_ s;
     column_args_ := column_args_ s |}.

Definition set_columns (s : t) (cols : list (option ColumnDesc)) (nk nh : nat) : t :=
  {| name_ := name_ s; table_loc_ := table_loc_ s; loc_ := loc_ s;
     is_system_ := is_system_ s; table_ := table_ s;
     table_columns_ := cols;
     num_key_columns_ := nk;
     num_hash_key_columns_ := nh;
     key_where_ops_ := key_where_ops_ s; where_ops_ := where_ops_ s;
     write_only_ := write_only_ s; ttl_seconds_ := ttl_seconds_ s;
     column_args_ := column_args_ s |}.

Definition set_key_where_ops (s : t) (key_ops : list (option ColumnOp)) : t :=
  {| name_ := name_ s; table_loc_ := table_loc_ s; loc_ := loc_ s;
     is_system_ := is_system_ s; table_ := table_ s;
     table_columns_ := table_columns_ s;
     num_key_columns_ := num_key_columns_ s;
     num_hash_key_columns_ := num_hash_key_columns_ s;
     key_where_ops_ := key_ops; where_ops_ := where_ops_ s;
     write_only_ := write_only_ s; ttl_seconds_ := ttl_seconds_ s;
     column_args_ := column_args_ s |}.

Definition set_where_ops (s : t) (ops : list ColumnOp) : t :=
  {| name_ := name_ s; table_loc_ := table_loc_ s; loc_ := loc_ s;
     is_system_ := is_system_ s; table_ := table_ s;
     table_columns_ := table_columns_ s;
     num_key_columns_ := num_key_columns_ s;
     num_hash_key_columns_ := num_hash_key_columns_ s;
     key_where_ops_ := key_where_ops_ s; where_ops_ := ops;
     write_only_ := write_only_ s; ttl_seconds_ := ttl_seconds_ s;
     column_args_ := column_args_ s |}.

Definition set_column_args (s : t) (args : option (list (option ColumnArg))) : t :=
  {| name_ := name_ s; table_loc_ := table_loc_ s; loc_ := loc_ s;
     is_system_ := is_system_ s; table_ := table_ s;
     table_columns_ := table_columns_ s;
     num_key_columns_ := num_key_columns_ s;
     num_hash_key_columns_ := num_hash_key_columns_ s;
     key_where_ops_ := key_where_ops_ s; where_ops_ := where_ops_ s;
     write_only_ := write_only_ s; ttl_seconds_ := ttl_seconds_ s;
     column_args_ := args |}.

(** The constructor: everything empty but the arguments. *)
Definition make (name : YBTableName) (table_loc loc : YBLocation)
    (write_only : bool) (ttl_seconds : option PTConstInt) : t :=
  {| name_ := name; table_loc_ := table_loc; loc_ := loc;
     is_system_ := false; table_ := None;
     table_columns_ := [];
     num_key_columns_ := 0;
     num_hash_key_columns_ := 0;
     key_where_ops_ := []; where_ops_ := [];
     write_only_ := write_only; ttl_seconds_ := ttl_seconds;
     column_args_ := None |}.

Section LookupTable.

(** Declared outside the sources of this file: the test of a table name for
    the system keyspace, the process-wide flag, the mapping of a column type
    to its internal type, and the insertion into the symbol table. *)
Variable is_system : YBTableName → bool.
Variable FLAGS_yb_system_namespace_readonly : bool.
Variable ToInternalDataType : DataType → InternalType.
Variable MapSymbol : SemContext → string → ColumnDesc → Status * SemContext.

(** The loop of [LookupTable] over the columns of the schema, from [idx]. *)
Fixpoint init_columns (sem_context : SemContext) (cols : list (YBColumnSchema * nat))
    (idx nk nh : nat) (table_columns : list (option ColumnDesc))
    : Status * list (option ColumnDesc) * SemContext :=
  match cols with
  | [] => (OK, table_columns, sem_context)
  | (col, col_id) :: cols =>
      let d := {| index := idx;
                  id_ := col_id;
                  is_hash := bool_decide (idx < nh);
                  is_primary := bool_decide (idx < nk);
                  is_static := col_is_static col;
                  sql_type := col_type col;
                  type_id := ToInternalDataType (col_type col) |} in
      let table_columns := <[idx := Some d]> table_columns in
      match MapSymbol sem_context (col_name col) d with
      | (OK, sem_context) => init_columns sem_context cols (S idx) nk nh table_columns
      | (failed, sem_context) => (failed, table_columns, sem_context)
      end
  end.

Definition LookupTable (sem_context : SemContext) (s : t) : Status * t * SemContext :=
  let name := name_ s in
  let name :=
    if negb (has_namespace name)
    then set_namespace_name name (CurrentKeyspace sem_context)
    else name in
  let s := set_is_system s (is_system name) in
  if is_system_ s && write_only_ s && FLAGS_yb_system_namespace_readonly then
    (Error (table_loc_ s) None SYSTEM_NAMESPACE_READONLY, s, sem_context)
  else
    let s := set_table s (GetTableDesc sem_context name) in
    match table_ s with
    | None => (Error (table_loc_ s) None TABLE_NOT_FOUND, s, sem_context)
    | Some table =>
        let schema := schema table in
        let num_columns := length (columns schema) in
        let nk := num_key_columns schema in
        let nh := num_hash_key_columns schema in
        let '(status, table_columns, sem_context) :=
          init_columns sem_context (columns schema) 0 nk nh
            (resize num_columns None (table_columns_ s)) in
        (status, set_columns s table_columns nk nh, sem_context)
    end.

End LookupTable.

(** [Analyze]: a fresh, empty vector of column arguments. *)
Definition Analyze (s : t) : Status * t :=
  (OK, set_column_args s (Some [])).

Definition StaticColumnArgsOnly (s : t) : option bool :=
  column_args ← column_args_ s;
  match column_args with
  | [] => Some false
  | _ =>
      write_range_columns ←
        any_from IsInitialized column_args (num_hash_key_columns_ s)
          (num_key_columns_ s - num_hash_key_columns_ s);
      flags ←
        static_scan column_args (num_key_columns_ s)
          (length column_args - num_key_columns_ s) false false;
      Some (fst flags && negb write_range_columns && negb (snd flags))
  end.

Definition AnalyzeWhereExpr (s : t) (expr : PTExpr) : option (Status * t) :=
  let op_counters := replicate (num_columns s) zero_counter in
  let where_state :=
    {| WhereExprState.ops_ := where_ops_ s;
       WhereExprState.key_ops_ := key_where_ops_ s;
       WhereExprState.op_counters_ := op_counters;
       WhereExprState.write_only_ := write_only_ s |} in
  walked ← PTExpr_Analyze expr where_state;
  let status := fst walked in
  let s := set_where_ops (set_key_where_ops s (WhereExprState.key_ops_ (snd walked)))
             (WhereExprState.ops_ (snd walked)) in
  let op_counters := WhereExprState.op_counters_ (snd walked) in
  let nh := num_hash_key_columns_ s in
  let nk := num_key_columns_ s in
  if negb (ok status) then Some (status, s)
  else if write_only_ s then
    missing ← any_from (λ c, eq_count c =? 0) op_counters 0 nh;
    if missing : bool then
      Some (Error (PTExpr_loc expr) (Some "Missing condition on key columns in WHERE clause")
              CQL_STATEMENT_INVALID, s)
    else
      range_keys ← count_from (λ c, negb (eq_count c =? 0)) op_counters nh (nk - nh) 0;
      static_only ← StaticColumnArgsOnly s;
      if static_only : bool then
        if negb (Z.of_nat range_keys =? Z.of_nat nk - Z.of_nat nh)%Z
           && negb (range_keys =? 0) then
          Some (Error (PTExpr_loc expr) (Some "Missing condition on key columns in WHERE clause")
                  CQL_STATEMENT_INVALID, s)
        else if range_keys =? 0 then
          Some (OK, set_key_where_ops s (resize nh None (key_where_ops_ s)))
        else Some (OK, s)
      else
        if negb (Z.of_nat range_keys =? Z.of_nat nk - Z.of_nat nh)%Z then
          Some (Error (PTExpr_loc expr) (Some "Missing condition on key columns in WHERE clause")
                  CQL_STATEMENT_INVALID, s)
        else Some (OK, s)
  else
    has_incomplete_hash ← any_from (λ slot, negb (IsInitialized slot)) (key_where_ops_ s) 0 nh;
    if has_incomplete_hash : bool then
      ops ← push_front_filled (key_where_ops_ s) nh (where_ops_ s);
      Some (OK, set_key_where_ops (set_where_ops s ops) [])
    else Some (OK, s).

Definition AnalyzeWhereClause (s : t) (where_clause : option PTExpr)
    : option (Status * t) :=
  match where_clause with
  | None =>
      if write_only_ s then
        Some (Error (loc_ s) (Some "Missing partition key") CQL_STATEMENT_INVALID, s)
      else Some (OK, s)
  | Some expr =>
      let s :=
        if write_only_ s
        then set_key_where_ops s (resize (num_key_columns_ s) None (key_where_ops_ s))
        else set_key_where_ops s (resize (num_hash_key_columns_ s) None (key_where_ops_ s)) in
      AnalyzeWhereExpr s expr
  end.

Definition AnalyzeUsingClause (s : t) : Status :=
  match ttl_seconds_ s with
  | None => OK
  | Some ttl =>
      if negb (IsValidTTLSeconds (Eval ttl)) then
        Error (const_loc ttl)
          (Some (Substitute "Valid ttl range : [$0, $1]"
                   [pretty kMinTtlSeconds; pretty kMaxTtlSeconds]))
          INVALID_ARGUMENTS
      else OK
  end.

End PTDmlStmt.

(** The TTL error, as the specification names it; its message carries the two
    bounds. *)
Definition InvalidTtl (l : YBLocation) : Status :=
  Error l (Some ("Valid ttl range : [" +:+ pretty kMinTtlSeconds +:+ ", "
                   +:+ pretty kMaxTtlSeconds +:+ "]")) INVALID_ARGUMENTS.

(** ** Notions used to state the properties *)

(** The state [AnalyzeWhereExpr] starts the walk from. *)
Definition where_state_of (s : PTDmlStmt.t) : WhereExprState.t :=
  {| WhereExprState.ops_ := PTDmlStmt.where_ops_ s;
     WhereExprState.key_ops_ := PTDmlStmt.key_where_ops_ s;
     WhereExprState.op_counters_ := replicate (PTDmlStmt.num_columns s) zero_counter;
     WhereExprState.write_only_ := PTDmlStmt.write_only_ s |}.

(** The statement after the walk: its two collections are the ones the walk
    wrote through its pointers. *)
Definition after_walk (s : PTDmlStmt.t) (ws : WhereExprState.t) : PTDmlStmt.t :=
  PTDmlStmt.set_where_ops
    (PTDmlStmt.set_key_where_ops s (WhereExprState.key_ops_ ws))
    (WhereExprState.ops_ ws).

(** The number of clustering columns, indices [nh] to [nk - 1], with a
    recorded EQ. *)
Definition range_eq_count (counters : list ColumnOpCounter) (nh nk : nat) : nat :=
  length (filter (λ c, eq_count c ≠ 0) (take (nk - nh) (drop nh counters))).

(** The initialised entries of a vector of slots, in index order. *)
Definition filled_slots {A} (slots : list (option A)) : list A := omap id slots.

(** Every initialised slot of [before] is still initialised in [after]. *)
Definition slot_kept (before after : list (option ColumnOp)) : Prop :=
  ∀ i c, before !! i = Some (Some c) → ∃ c', after !! i = Some (Some c').

(** A populated column argument on a static column, and on a column that is
    not static. *)
Definition static_arg (slot : option ColumnArg) : bool :=
  match slot with Some a => is_static (arg_desc a) | None => false end.

Definition non_static_arg (slot : option ColumnArg) : bool :=
  match slot with Some a => negb (is_static (arg_desc a)) | None => false end.

Definition is_lt_family (o : YQLOperator) : bool :=
  match o with
  | YQL_OP_LESS_THAN | YQL_OP_LESS_THAN_EQUAL => true
  | _ => false
  end.

Definition is_gt_family (o : YQLOperator) : bool :=
  match o with
  | YQL_OP_GREATER_THAN | YQL_OP_GREATER_THAN_EQUAL => true
  | _ => false
  end.

Definition is_comparison (o : YQLOperator) : bool :=
  match o with
  | YQL_OP_OTHER _ => false
  | _ => true
  end.

(** The name [LookupTable] looks up. *)
Definition resolved_name (sem_context : SemContext) (s : PTDmlStmt.t) : YBTableName :=
  if has_namespace (PTDmlStmt.name_ s) then PTDmlStmt.name_ s
  else set_namespace_name (PTDmlStmt.name_ s) (CurrentKeyspace sem_context).

(** Every count is at most one. *)
Definition counters_bounded (counters : list ColumnOpCounter) : Prop :=
  Forall (λ c, eq_count c ≤ 1 ∧ lt_count c ≤ 1 ∧ gt_count c ≤ 1) counters.

(** The slot at [idx] holds an EQ on the column of index [idx]. *)
Definition eq_slot (key_ops : list (option ColumnOp)) (idx : nat) : Prop :=
  ∃ o, key_ops !! idx = Some (Some o) ∧ op o = YQL_OP_EQUAL ∧ index (desc o) = idx.

(** Every column with a recorded EQ has its EQ in the key slot of its index. *)
Definition eq_in_slots (st : WhereExprState.t) : Prop :=
  ∀ idx c, WhereExprState.op_counters_ st !! idx = Some c → 0 < eq_count c →
           eq_slot (WhereExprState.key_ops_ st) idx.

(** Every initialised key slot belongs to a column with a recorded EQ. *)
Definition slots_recorded (st : WhereExprState.t) : Prop :=
  ∀ idx o, WhereExprState.key_ops_ st !! idx = Some (Some o) →
           ∃ c, WhereExprState.op_counters_ st !! idx = Some c ∧ 0 < eq_count c.

(** The number of comparisons of an expression. *)
Fixpoint leaf_count (e : PTExpr) : nat :=
  match e with
  | PTRelation _ _ _ => 1
  | PTLogicAnd _ lhs rhs => leaf_count lhs + leaf_count rhs
  end.

(** The columns the comparisons of an expression are on. *)
Fixpoint leaf_columns (e : PTExpr) : list ColumnDesc :=
  match e with
  | PTRelation _ col_desc _ => [col_desc]
  | PTLogicAnd _ lhs rhs => leaf_columns lhs ++ leaf_columns rhs
  end.

(** A descriptor that agrees with the layout of a table of [ncols] columns,
    the first [nk] of them key columns and the first [nh] hash columns. *)
Definition well_classified (nh nk ncols : nat) (d : ColumnDesc) : Prop :=
  index d < ncols
  ∧ (is_hash d = true → index d < nh)
  ∧ (is_primary d = true → index d < nk).

(** The descriptor [LookupTable] builds for entry [idx] of a schema. *)
Definition descriptor_of (ToInternalDataType : DataType → InternalType)
    (sch : YBSchema) (idx : nat) (col : YBColumnSchema) (col_id : nat) : ColumnDesc :=
  {| index := idx;
     id_ := col_id;
     is_hash := bool_decide (idx < num_hash_key_columns sch);
     is_primary := bool_decide (idx < num_key_columns sch);
     is_static := col_is_static col;
     sql_type := col_type col;
     type_id := ToInternalDataType (col_type col) |}.

(** ** The table of the specification's examples

    [T(h int hash, c int primary, s int static, r int)] *)

Definition col_h : ColumnDesc :=
  {| index := 0; id_ := 10; is_hash := true; is_primary := true;
     is_static := false; sql_type := 4; type_id := 4 |}.
Definition col_c : ColumnDesc :=
  {| index := 1; id_ := 11; is_hash := false; is_primary := true;
     is_static := false; sql_type := 4; type_id := 4 |}.
Definition col_s : ColumnDesc :=
  {| index := 2; id_ := 12; is_hash := false; is_primary := false;
     is_static := true; sql_type := 4; type_id := 4 |}.
Definition col_r : ColumnDesc :=
  {| index := 3; id_ := 13; is_hash := false; is_primary := false;
     is_static := false; sql_type := 4; type_id := 4 |}.

Definition lit (z : Z) : PTConstInt := {| const_loc := 0; const_value := z |}.

Definition rel (o : YQLOperator) : PTRelationExpr := {| rel_loc := 7; yql_op := o |}.

Definition cmp (o : YQLOperator) (c : ColumnDesc) (z : Z) : PTExpr :=
  PTRelation (rel o) c (lit z).

Definition col_op (o : YQLOperator) (c : ColumnDesc) (z : Z) : ColumnOp :=
  {| desc := c; expr := lit z; op := o |}.

Definition arg (c : ColumnDesc) : option ColumnArg :=
  Some {| arg_desc := c; arg_expr := lit 1 |}.

Definition name_T : YBTableName := {| namespace_name := None; table_name := "T" |}.

(** A statement on [T] after [LookupTable], with the given column arguments
    and the key slots and filters already collected. *)
Definition stmt_T (write_only : bool) (args : option (list (option ColumnArg)))
    (key_ops : list (option ColumnOp)) (ops : list ColumnOp) : PTDmlStmt.t :=
  {| PTDmlStmt.name_ := name_T;
     PTDmlStmt.table_loc_ := 1; PTDmlStmt.loc_ := 2;
     PTDmlStmt.is_system_ := false; PTDmlStmt.table_ := None;
     PTDmlStmt.table_columns_ := [Some col_h; Some col_c; Some col_s; Some col_r];
     PTDmlStmt.num_key_columns_ := 2;
     PTDmlStmt.num_hash_key_columns_ := 1;
     PTDmlStmt.key_where_ops_ := key_ops; PTDmlStmt.where_ops_ := ops;
     PTDmlStmt.write_only_ := write_only; PTDmlStmt.ttl_seconds_ := None;
     PTDmlStmt.column_args_ := args |}.

(** A walk state over [T] with the given counters. *)
Definition state_T (write_only : bool) (key_ops : list (option ColumnOp))
    (ops : list ColumnOp) (counters : list ColumnOpCounter) : WhereExprState.t :=
  {| WhereExprState.ops_ := ops;
     WhereExprState.key_ops_ := key_ops;
     WhereExprState.op_counters_ := counters;
     WhereExprState.write_only_ := write_only |}.

Definition counter (gt lt eq : nat) : ColumnOpCounter :=
  {| gt_count := gt; lt_count := lt; eq_count := eq |}.

(** A second table, with two hash columns:
    [U(h1 int hash, h2 int hash, c int primary)] *)

Definition col_h1 : ColumnDesc :=
  {| index := 0; id_ := 20; is_hash := true; is_primary := true;
     is_static := false; sql_type := 4; type_id := 4 |}.
Definition col_h2 : ColumnDesc :=
  {| index := 1; id_ := 21; is_hash := true; is_primary := true;
     is_static := false; sql_type := 4; type_id := 4 |}.
Definition col_c2 : ColumnDesc :=
  {| index := 2; id_ := 22; is_hash := false; is_primary := true;
     is_static := false; sql_type := 4; type_id := 4 |}.

Definition stmt_U (write_only : bool) (args : option (list (option ColumnArg)))
    (key_ops : list (option ColumnOp)) (ops : list ColumnOp) : PTDmlStmt.t :=
  {| PTDmlStmt.name_ := {| namespace_name := None; table_name := "U" |};
     PTDmlStmt.table_loc_ := 1; PTDmlStmt.loc_ := 2;
     PTDmlStmt.is_system_ := false; PTDmlStmt.table_ := None;
     PTDmlStmt.table_columns_ := [Some col_h1; Some col_h2; Some col_c2];
     PTDmlStmt.num_key_columns_ := 3;
     PTDmlStmt.num_hash_key_columns_ := 2;
     PTDmlStmt.key_where_ops_ := key_ops; PTDmlStmt.where_ops_ := ops;
     PTDmlStmt.write_only_ := write_only; PTDmlStmt.ttl_seconds_ := None;
     PTDmlStmt.column_args_ := args |}.

(** A context whose current keyspace is ["system"] and whose catalog is empty,
    with a test for the system keyspace and a symbol table that accepts every
    insertion. *)

Definition sem_system : SemContext :=
  {| CurrentKeyspace := "system";
     GetTableDesc := λ _, None;
     symtab := ∅ |}.

Definition is_system_name (n : YBTableName) : bool :=
  bool_decide (namespace_name n = Some "system").

Definition map_symbol_ok (sem_context : SemContext) (name : string) (d : ColumnDesc)
    : Status * SemContext :=
  (OK, {| CurrentKeyspace := CurrentKeyspace sem_context;
          GetTableDesc := GetTableDesc sem_context;
          symtab := <[name := d]> (symtab sem_context) |}).

(** A context whose catalog holds [T], and [LookupTable] run in it for a
    write to the unqualified name [T]. *)

Definition schema_T : YBSchema :=
  {| columns := [({| col_name := "h"; col_type := 4; col_is_static := false |}, 10);
                 ({| col_name := "c"; col_type := 4; col_is_static := false |}, 11);
                 ({| col_name := "s"; col_type := 4; col_is_static := true |}, 12);
                 ({| col_name := "r"; col_type := 4; col_is_static := false |}, 13)];
     num_key_columns := 2;
     num_hash_key_columns := 1 |}.

Definition sem_ks : SemContext :=
  {| CurrentKeyspace := "ks";
     GetTableDesc := λ _, Some {| schema := schema_T |};
     symtab := ∅ |}.

Definition lookup_T_run : Status * PTDmlStmt.t * SemContext :=
  PTDmlStmt.LookupTable is_system_name true (λ t, t) map_symbol_ok sem_ks
    (PTDmlStmt.make name_T 1 2 true None).

(** * Properties *)

(** ** The loops *)

Section Loops.
Context {A : Type}.
Implicit Types (v : list A) (p : A → bool).

(** The entries [lo .. lo + n - 1] of a vector. *)
Lemma elem_of_window v lo n x :
  x ∈ take n (drop lo v) ↔ ∃ i, lo ≤ i < lo + n ∧ v !! i = Some x.
Proof.
  rewrite elem_of_take. split.
  - intros (i & Hi & Hlt). rewrite lookup_drop in Hi.
    exists (lo + i). split; [lia | done].
  - intros (i & Hi & Hx). exists (i - lo).
    rewrite lookup_drop. replace (lo + (i - lo)) with i by lia.
    split; [done | lia].
Qed.

Lemma existsb_window p v lo n :
  existsb p (take n (drop lo v)) = true ↔
  ∃ i x, lo ≤ i < lo + n ∧ v !! i = Some x ∧ p x = true.
Proof.
  rewrite existsb_exists. split.
  - intros (x & Hin & Hp). apply list_elem_of_In, elem_of_window in Hin.
    destruct Hin as (i & Hi & Hx). by exists i, x.
  - intros (i & x & Hi & Hx & Hp). exists x. split; [| done].
    apply list_elem_of_In, elem_of_window. by exists i.
Qed.

Lemma existsb_take p v n :
  existsb p (take n v) = true ↔ ∃ i x, i < n ∧ v !! i = Some x ∧ p x = true.
Proof.
  rewrite <- (drop_0 v) at 1. rewrite existsb_window. split.
  - intros (i & x & Hi & Hx). exists i, x. split; [lia | done].
  - intros (i & x & Hi & Hx). exists i, x. split; [lia | done].
Qed.

Lemma any_from_existsb p v lo n :
  lo + n ≤ length v →
  any_from p v lo n = Some (existsb p (take n (drop lo v))).
Proof.
  revert lo. induction n as [| n IH]; intros lo Hlen; simpl; [done |].
  destruct (lookup_lt_is_Some_2 v lo) as [x Hx]; [lia |].
  rewrite Hx, (drop_S _ _ _ Hx). simpl.
  destruct (p x); [done |]. apply IH. lia.
Qed.

Lemma count_from_filter p (P : A → Prop) `{!∀ x, Decision (P x)} v lo n count :
  (∀ x, p x = true ↔ P x) →
  lo + n ≤ length v →
  count_from p v lo n count =
  Some (count + length (filter P (take n (drop lo v)))).
Proof.
  intros Hp. revert lo count.
  induction n as [| n IH]; intros lo count Hlen; simpl.
  - f_equal. lia.
  - destruct (lookup_lt_is_Some_2 v lo) as [x Hx]; [lia |].
    rewrite Hx, (drop_S _ _ _ Hx). simpl.
    rewrite IH; [| lia]. f_equal.
    destruct (p x) eqn:Hpx.
    + rewrite filter_cons_True; [| by apply Hp]. simpl. lia.
    + rewrite filter_cons_False; [done |].
      intros HP. apply Hp in HP. congruence.
Qed.

End Loops.

Lemma push_front_filled_spec key_ops n ops :
  n ≤ length key_ops →
  push_front_filled key_ops n ops = Some (filled_slots (take n key_ops) ++ ops).
Proof.
  revert ops. induction n as [| n IH]; intros ops Hlen; simpl; [done |].
  destruct (lookup_lt_is_Some_2 key_ops n) as [slot Hslot]; [lia |].
  rewrite Hslot, (take_S_r _ _ _ Hslot). simpl.
  unfold filled_slots in *. rewrite omap_app.
  destruct slot as [c |]; rewrite IH; try lia; simpl.
  - by rewrite <- app_assoc.
  - by rewrite app_nil_r.
Qed.

Lemma static_scan_spec column_args idx n ws wns :
  idx + n ≤ length column_args →
  ∃ flags, static_scan column_args idx n ws wns = Some flags ∧
    fst flags && negb (snd flags) =
    (ws || existsb static_arg (take n (drop idx column_args)))
    && negb (wns || existsb non_static_arg (take n (drop idx column_args))).
Proof.
  revert idx ws wns. induction n as [| n IH]; intros idx ws wns Hlen; simpl.
  - eexists; split; [done |]. simpl. by rewrite !orb_false_r.
  - destruct (lookup_lt_is_Some_2 column_args idx) as [slot Hslot]; [lia |].
    rewrite Hslot, (drop_S _ _ _ Hslot). simpl.
    destruct slot as [a |]; simpl.
    + destruct (is_static (arg_desc a)); simpl.
      * destruct wns; simpl.
        { eexists; split; [done |]. simpl. by rewrite andb_false_r. }
        destruct (IH (S idx) true false) as (flags & -> & Hflags); [lia |].
        eexists; split; [done |]. rewrite Hflags. simpl. by rewrite orb_true_r.
      * destruct ws; simpl.
        { eexists; split; [done |]. simpl. by rewrite orb_true_r. }
        destruct (IH (S idx) false true) as (flags & -> & Hflags); [lia |].
        eexists; split; [done |]. rewrite Hflags. simpl.
        by rewrite orb_true_r.
    + destruct (IH (S idx) ws wns) as (flags & -> & Hflags); [lia |].
      eexists; split; [done |]. by rewrite Hflags.
Qed.

(** ** One comparison *)

Section ColumnOp.
Import WhereExprState.

(** Every path through [AnalyzeColumnOp] that returns. *)
Ltac column_op_cases H :=
  unfold AnalyzeColumnOp, init_key_op in H;
  match type of H with
  | context [op_counters_ ?st !! ?i] =>
      let Hc := fresh "Hcounter" in
      destruct (op_counters_ st !! i) eqn:Hc; simpl in H; [| done]
  end;
  repeat case_match; simplify_eq; simpl in *;
  try case_decide; simplify_eq; simpl in *.

Lemma slot_kept_refl l : slot_kept l l.
Proof. intros i c Hi. by exists c. Qed.

Lemma slot_kept_trans l1 l2 l3 : slot_kept l1 l2 → slot_kept l2 l3 → slot_kept l1 l3.
Proof.
  intros H12 H23 i c Hi.
  destruct (H12 _ _ Hi) as [c' Hc']. by apply (H23 _ _ Hc').
Qed.

Lemma slot_kept_insert l i c : slot_kept l (<[i := Some c]> l).
Proof.
  intros j c' Hj. destruct (decide (i = j)) as [-> |].
  - exists c. apply list_lookup_insert_eq. by apply lookup_lt_Some in Hj.
  - exists c'. by rewrite list_lookup_insert_ne.
Qed.

(** What a comparison never changes, whether it is accepted or not: the
    sizes of the two vectors and the flag; and what it only extends. *)
Lemma AnalyzeColumnOp_shape st rel col v s st' :
  AnalyzeColumnOp st rel col v = Some (s, st') →
  length (op_counters_ st') = length (op_counters_ st)
  ∧ length (key_ops_ st') = length (key_ops_ st)
  ∧ write_only_ st' = write_only_ st
  ∧ ops_ st `prefix_of` ops_ st'
  ∧ slot_kept (key_ops_ st) (key_ops_ st').
Proof.
  intros H. column_op_cases H.
  all: rewrite ?length_insert.
  all: repeat split; auto using slot_kept_refl, slot_kept_insert.
  all: try by apply prefix_app_r.
Qed.

(** A rejected comparison leaves both collections of the statement as they
    were. *)
Lemma AnalyzeColumnOp_rejected st rel col v s st' :
  AnalyzeColumnOp st rel col v = Some (s, st') →
  ok s = false →
  ops_ st' = ops_ st ∧ key_ops_ st' = key_ops_ st.
Proof. intros H Hs. by column_op_cases H. Qed.

(** [AnalyzeColumnOp] returns once the column's counter exists and, for the
    writes to a key slot, once the slot exists. *)
Lemma AnalyzeColumnOp_returns st rel col v :
  index col < length (op_counters_ st) →
  (is_hash col = true ∨ (is_primary col = true ∧ write_only_ st = true) →
   index col < length (key_ops_ st)) →
  is_Some (AnalyzeColumnOp st rel col v).
Proof.
  intros Hc Hk. apply lookup_lt_is_Some_2 in Hc as [c Hc].
  unfold AnalyzeColumnOp, init_key_op. rewrite Hc. simpl.
  repeat case_match; simpl; try done.
  all: case_decide; simpl; [done |].
  all: exfalso; auto.
Qed.

(** C8: an EQ comparison is accepted only when the column's counter records
    no earlier EQ, LT-family or GT-family comparison; with any earlier
    comparison recorded it is rejected with the illogical-condition error and
    nothing changes; an accepted EQ on a hash column fills the key slot of
    that column. On a key column with nothing recorded the EQ is accepted. *)
Theorem C8_eq_needs_fresh_column st rel col v counter :
  yql_op rel = YQL_OP_EQUAL →
  op_counters_ st !! index col = Some counter →
  (is_hash col = true ∨ (is_primary col = true ∧ write_only_ st = true) →
   index col < length (key_ops_ st)) →
  ∃ s st', AnalyzeColumnOp st rel col v = Some (s, st')
    ∧ (s = OK →
       eq_count counter = 0 ∧ lt_count counter = 0 ∧ gt_count counter = 0)
    ∧ (eq_count counter ≠ 0 ∨ lt_count counter ≠ 0 ∨ gt_count counter ≠ 0 →
       s = IllogicalCondition (rel_loc rel) ∧ st' = st)
    ∧ (eq_count counter = 0 ∧ lt_count counter = 0 ∧ gt_count counter = 0 →
       is_hash col = true ∨ is_primary col = true → s = OK)
    ∧ (s = OK → is_hash col = true →
       key_ops_ st' !! index col =
       Some (Some {| desc := col; expr := v; op := YQL_OP_EQUAL |})).
Proof.
  intros Hop Hc Hk.
  destruct (AnalyzeColumnOp st rel col v) as [[s st'] |] eqn:H.
  2: { destruct (AnalyzeColumnOp_returns st rel col v) as [? ?]; [| done | congruence].
       by apply lookup_lt_Some in Hc. }
  exists s, st'. split; [done |].
  column_op_cases H; try congruence.
  all: repeat match goal with
       | H : _ || _ = true |- _ => apply orb_true_iff in H as [H | H]
       | H : _ || _ = false |- _ => apply orb_false_iff in H as [? ?]
       | H : (0 <? _) = true |- _ => apply Nat.ltb_lt in H
       | H : (0 <? _) = false |- _ => apply Nat.ltb_ge in H
       end.
  all: repeat split; intros; try done; try lia.
  all: try (by apply list_lookup_insert_eq).
  all: try (exfalso; lia).
  all: try (exfalso; naive_solver).
Qed.

(** [h = 5] as the first comparison of a read statement on [T]. *)
Lemma C8_witness :
  ∃ s st',
    AnalyzeColumnOp (state_T false [None] [] (replicate 4 zero_counter))
      (rel YQL_OP_EQUAL) col_h (lit 5) = Some (s, st')
    ∧ (s = OK → 0 = 0 ∧ 0 = 0 ∧ 0 = 0)
    ∧ (0 ≠ 0 ∨ 0 ≠ 0 ∨ 0 ≠ 0 →
       s = IllogicalCondition 7
       ∧ st' = state_T false [None] [] (replicate 4 zero_counter))
    ∧ (0 = 0 ∧ 0 = 0 ∧ 0 = 0 → true = true ∨ true = true → s = OK)
    ∧ (s = OK → true = true →
       key_ops_ st' !! 0 = Some (Some (col_op YQL_OP_EQUAL col_h 5))).
Proof.
  apply (C8_eq_needs_fresh_column
           (state_T false [None] [] (replicate 4 zero_counter))
           (rel YQL_OP_EQUAL) col_h (lit 5) zero_counter).
  - reflexivity.
  - reflexivity.
  - intros _. simpl. lia.
Defined.

(** C2 (as the code has it): whatever the statement kind, read or write, a
    comparison on a regular column, neither hash nor primary, is rejected and
    leaves the filters and the key slots as they were. The error is
    [NonKeyColumnInWhere], except for an EQ on a column whose counter already
    records a comparison, which is an illogical condition. *)
Theorem C2_regular_column_rejected st rel col v counter :
  is_hash col = false →
  is_primary col = false →
  is_comparison (yql_op rel) = true →
  op_counters_ st !! index col = Some counter →
  ∃ s st', AnalyzeColumnOp st rel col v = Some (s, st')
    ∧ ok s = false
    ∧ ops_ st' = ops_ st
    ∧ key_ops_ st' = key_ops_ st
    ∧ ((yql_op rel = YQL_OP_EQUAL →
        eq_count counter = 0 ∧ lt_count counter = 0 ∧ gt_count counter = 0) →
       s = NonKeyColumnInWhere (rel_loc rel))
    ∧ (yql_op rel = YQL_OP_EQUAL →
       eq_count counter ≠ 0 ∨ lt_count counter ≠ 0 ∨ gt_count counter ≠ 0 →
       s = IllogicalCondition (rel_loc rel) ∧ st' = st).
Proof.
  intros Hh Hp Hop Hc.
  destruct (AnalyzeColumnOp st rel col v) as [[s st'] |] eqn:H.
  2: { destruct (AnalyzeColumnOp_returns st rel col v) as [? ?]; [| | congruence].
       - by apply lookup_lt_Some in Hc.
       - intros [? | [? _]]; congruence. }
  exists s, st'. split; [done |].
  column_op_cases H; try congruence; try done.
  all: repeat match goal with
       | H : _ || _ = true |- _ => apply orb_true_iff in H as [H | H]
       | H : _ || _ = false |- _ => apply orb_false_iff in H as [? ?]
       | H : (0 <? _) = true |- _ => apply Nat.ltb_lt in H
       | H : (0 <? _) = false |- _ => apply Nat.ltb_ge in H
       end.
  all: split; [done |]; split; [done |]; split; [done |]; split.
  all: try (intros Hzero; destruct Hzero as (He & Hl & Hg); [done |]; lia).
  all: try (intros _ _; by split).
  all: try (intros _; done).
  all: try (intros _ [? | [? | ?]]; lia).
Qed.

(** [r = 3] in a read statement on [T], on a state whose counter for [r]
    already records an EQ. *)
Lemma C2_witness :
  ∃ s st',
    AnalyzeColumnOp
      (state_T false [None] []
         [zero_counter; zero_counter; zero_counter; counter 0 0 1])
      (rel YQL_OP_EQUAL) col_r (lit 3) = Some (s, st')
    ∧ ok s = false
    ∧ ops_ st' = []
    ∧ key_ops_ st' = [None]
    ∧ ((YQL_OP_EQUAL = YQL_OP_EQUAL → 1 = 0 ∧ 0 = 0 ∧ 0 = 0) →
       s = NonKeyColumnInWhere 7)
    ∧ (YQL_OP_EQUAL = YQL_OP_EQUAL →
       1 ≠ 0 ∨ 0 ≠ 0 ∨ 0 ≠ 0 →
       s = IllogicalCondition 7
       ∧ st' = state_T false [None] []
                 [zero_counter; zero_counter; zero_counter; counter 0 0 1]).
Proof.
  apply (C2_regular_column_rejected
           (state_T false [None] []
              [zero_counter; zero_counter; zero_counter; counter 0 0 1])
           (rel YQL_OP_EQUAL) col_r (lit 3) (counter 0 0 1));
    reflexivity.
Defined.

(** C2, refuted as stated: in a read statement on [T], each of [r < 3],
    [r = 3] and [r >= 3] on the regular column [r] is rejected with
    [NonKeyColumnInWhere], and no filter is appended. *)
Lemma C2_counterexample :
  let st := state_T false [None] [] (replicate 4 zero_counter) in
  write_only_ st = false
  ∧ is_hash col_r = false
  ∧ is_primary col_r = false
  ∧ AnalyzeColumnOp st (rel YQL_OP_LESS_THAN) col_r (lit 3)
    = Some (NonKeyColumnInWhere 7, st)
  ∧ (∃ st', AnalyzeColumnOp st (rel YQL_OP_EQUAL) col_r (lit 3)
            = Some (NonKeyColumnInWhere 7, st') ∧ ops_ st' = [])
  ∧ AnalyzeColumnOp st (rel YQL_OP_GREATER_THAN_EQUAL) col_r (lit 3)
    = Some (NonKeyColumnInWhere 7, st).
Proof.
  repeat split; try reflexivity.
  eexists. split; reflexivity.
Qed.

(** C7 (as the code has it): a comparison on a column that already carries one
    is rejected when it is an EQ (after any earlier comparison), an LT-family
    comparison after an EQ or an LT-family one, or a GT-family comparison
    after an EQ or a GT-family one. A lower and an upper bound on the same
    clustering column of a read statement are both accepted, in either order.
    Every accepted comparison is recorded in the counter of its family. *)
Theorem C7_repeated_comparison st rel col v counter s st' :
  op_counters_ st !! index col = Some counter →
  AnalyzeColumnOp st rel col v = Some (s, st') →
  (yql_op rel = YQL_OP_EQUAL →
   0 < eq_count counter ∨ 0 < lt_count counter ∨ 0 < gt_count counter →
   ok s = false)
  ∧ (is_lt_family (yql_op rel) = true →
     0 < eq_count counter ∨ 0 < lt_count counter → ok s = false)
  ∧ (is_gt_family (yql_op rel) = true →
     0 < eq_count counter ∨ 0 < gt_count counter → ok s = false)
  ∧ (is_lt_family (yql_op rel) = true →
     is_hash col = false → is_primary col = true → write_only_ st = false →
     eq_count counter = 0 → lt_count counter = 0 → s = OK)
  ∧ (is_gt_family (yql_op rel) = true →
     is_hash col = false → is_primary col = true → write_only_ st = false →
     eq_count counter = 0 → gt_count counter = 0 → s = OK)
  ∧ (s = OK →
     op_counters_ st' !! index col =
     Some (if is_lt_family (yql_op rel) then increase_lt counter
           else if is_gt_family (yql_op rel) then increase_gt counter
           else increase_eq counter)).
Proof.
  intros Hc H.
  column_op_cases H; try congruence.
  all: repeat match goal with
       | H : _ || _ = true |- _ => apply orb_true_iff in H as [H | H]
       | H : _ || _ = false |- _ => apply orb_false_iff in H as [? ?]
       | H : (0 <? _) = true |- _ => apply Nat.ltb_lt in H
       | H : (0 <? _) = false |- _ => apply Nat.ltb_ge in H
       | H : ?x = Some _, H' : ?x = Some _ |- _ => rewrite H in H'; simplify_eq
       end.
  all: repeat split; intros; try done; try congruence; try lia.
  all: try (apply list_lookup_insert_eq; by eapply lookup_lt_Some).
  all: try (exfalso; lia).
  all: try (exfalso; naive_solver lia).
Qed.

(** [c > 3] after [c < 5] in a read statement on [T]. *)
Lemma C7_witness :
  (YQL_OP_GREATER_THAN = YQL_OP_EQUAL → 0 < 0 ∨ 0 < 1 ∨ 0 < 0 → ok OK = false)
  ∧ (is_lt_family YQL_OP_GREATER_THAN = true → 0 < 0 ∨ 0 < 1 → ok OK = false)
  ∧ (is_gt_family YQL_OP_GREATER_THAN = true → 0 < 0 ∨ 0 < 0 → ok OK = false)
  ∧ (is_lt_family YQL_OP_GREATER_THAN = true →
     false = false → true = true → false = false → 0 = 0 → 1 = 0 → OK = OK)
  ∧ (is_gt_family YQL_OP_GREATER_THAN = true →
     false = false → true = true → false = false → 0 = 0 → 0 = 0 → OK = OK)
  ∧ (OK = OK →
     [zero_counter; counter 1 1 0; zero_counter; zero_counter] !! 1 =
     Some (counter 1 1 0)).
Proof.
  apply (C7_repeated_comparison
           (state_T false [None] [col_op YQL_OP_LESS_THAN col_c 5]
              [zero_counter; counter 0 1 0; zero_counter; zero_counter])
           (rel YQL_OP_GREATER_THAN) col_c (lit 3) (counter 0 1 0) OK
           (state_T false [None]
              [col_op YQL_OP_LESS_THAN col_c 5; col_op YQL_OP_GREATER_THAN col_c 3]
              [zero_counter; counter 1 1 0; zero_counter; zero_counter]));
    reflexivity.
Defined.

(** C7, refuted as stated: in a read statement on [T], after [c < 5] was
    accepted and recorded, [c > 3] on the same column is accepted too. *)
Lemma C7_counterexample :
  let st0 := state_T false [None] [] (replicate 4 zero_counter) in
  ∃ st1 st2 counter,
    AnalyzeColumnOp st0 (rel YQL_OP_LESS_THAN) col_c (lit 5) = Some (OK, st1)
    ∧ op_counters_ st1 !! index col_c = Some counter
    ∧ lt_count counter = 1
    ∧ AnalyzeColumnOp st1 (rel YQL_OP_GREATER_THAN) col_c (lit 3) = Some (OK, st2)
    ∧ ops_ st2 = [col_op YQL_OP_LESS_THAN col_c 5; col_op YQL_OP_GREATER_THAN col_c 3].
Proof.
  do 3 eexists. repeat split; reflexivity.
Qed.

(** X3: a range comparison (LT, LTE, GT, GTE) on a hash column fails with
    [PartitionColumnInRangeExpr] in reads and writes alike, whatever the
    counter of the column holds, and changes nothing. *)
Lemma range_on_hash_column_rejected st rel col v counter :
  is_lt_family (yql_op rel) || is_gt_family (yql_op rel) = true →
  is_hash col = true →
  op_counters_ st !! index col = Some counter →
  AnalyzeColumnOp st rel col v = Some (PartitionColumnInRangeExpr (rel_loc rel), st).
Proof.
  intros Hop Hh Hc. unfold AnalyzeColumnOp. rewrite Hc, Hh. simpl.
  by destruct (yql_op rel).
Qed.

(** X4: in a write statement a range comparison on a clustering column fails
    with [RangeNotYetSupported], whatever the counter of the column holds,
    and changes nothing. *)
Lemma range_on_write_rejected st rel col v counter :
  is_lt_family (yql_op rel) || is_gt_family (yql_op rel) = true →
  is_hash col = false →
  is_primary col = true →
  write_only_ st = true →
  op_counters_ st !! index col = Some counter →
  AnalyzeColumnOp st rel col v = Some (RangeNotYetSupported (rel_loc rel), st).
Proof.
  intros Hop Hh Hp Hw Hc. unfold AnalyzeColumnOp. rewrite Hc, Hh, Hp, Hw. simpl.
  by destruct (yql_op rel).
Qed.

(** X5: an operator that is none of the five comparisons fails with
    [UnsupportedOperator] on every kind of column, and changes nothing. *)
Lemma other_operator_rejected st rel col v counter :
  is_comparison (yql_op rel) = false →
  op_counters_ st !! index col = Some counter →
  AnalyzeColumnOp st rel col v = Some (UnsupportedOperator (rel_loc rel), st).
Proof.
  intros Hop Hc. unfold AnalyzeColumnOp. rewrite Hc. simpl.
  by destruct (yql_op rel).
Qed.

End ColumnOp.

(** ** The walk of the WHERE expression *)

Section Walk.
Import WhereExprState.

Lemma PTExpr_Analyze_shape e st s st' :
  PTExpr_Analyze e st = Some (s, st') →
  length (op_counters_ st') = length (op_counters_ st)
  ∧ length (key_ops_ st') = length (key_ops_ st)
  ∧ write_only_ st' = write_only_ st
  ∧ ops_ st `prefix_of` ops_ st'
  ∧ slot_kept (key_ops_ st) (key_ops_ st').
Proof.
  revert st s st'.
  induction e as [rel col v | l lhs IHl rhs IHr]; intros st s st' H; simpl in H.
  - by eapply AnalyzeColumnOp_shape.
  - destruct (PTExpr_Analyze lhs st) as [[s1 st1] |] eqn:Hl; [| done].
    apply IHl in Hl as (Hc1 & Hk1 & Hw1 & Hp1 & Hs1).
    destruct s1; simplify_eq; [| done].
    apply IHr in H as (Hc2 & Hk2 & Hw2 & Hp2 & Hs2).
    repeat split; try congruence.
    + by etrans.
    + by eapply slot_kept_trans.
Qed.

(** A conjunction stops at the first operand that fails. *)
Lemma PTExpr_Analyze_and l lhs rhs st st1 r :
  PTExpr_Analyze lhs st = Some (OK, st1) →
  PTExpr_Analyze rhs st1 = r →
  PTExpr_Analyze (PTLogicAnd l lhs rhs) st = r.
Proof. intros Hl Hr. simpl. by rewrite Hl. Qed.

End Walk.

(** ** The post-pass of [AnalyzeWhereExpr] *)

Section PostPass.
Import PTDmlStmt.

Lemma StaticColumnArgsOnly_after_walk s ws :
  StaticColumnArgsOnly (after_walk s ws) = StaticColumnArgsOnly s.
Proof. reflexivity. Qed.

(** A failed walk is returned as it is, with what it wrote. *)
Lemma AnalyzeWhereExpr_walk_failed s e st ws :
  PTExpr_Analyze e (where_state_of s) = Some (st, ws) →
  ok st = false →
  AnalyzeWhereExpr s e = Some (st, after_walk s ws).
Proof.
  intros Hwalk Hst. unfold AnalyzeWhereExpr.
  change (PTExpr_Analyze e _) with (PTExpr_Analyze e (where_state_of s)).
  rewrite Hwalk. simpl. by rewrite Hst.
Qed.

(** The post-pass of a write statement, on the counters of the walk. *)
Lemma AnalyzeWhereExpr_write s e ws :
  write_only_ s = true →
  num_hash_key_columns_ s ≤ num_key_columns_ s →
  num_key_columns_ s ≤ num_columns s →
  PTExpr_Analyze e (where_state_of s) = Some (OK, ws) →
  let nh := num_hash_key_columns_ s in
  let nk := num_key_columns_ s in
  let counters := WhereExprState.op_counters_ ws in
  let r := range_eq_count counters nh nk in
  AnalyzeWhereExpr s e =
  if existsb (λ c, eq_count c =? 0) (take nh counters) then
    Some (MissingKeyCondition (PTExpr_loc e), after_walk s ws)
  else
    static_only ← StaticColumnArgsOnly s;
    if static_only : bool then
      if negb (r =? nk - nh) && negb (r =? 0) then
        Some (MissingKeyCondition (PTExpr_loc e), after_walk s ws)
      else if r =? 0 then
        Some (OK, set_key_where_ops (after_walk s ws)
                    (resize nh None (WhereExprState.key_ops_ ws)))
      else Some (OK, after_walk s ws)
    else if negb (r =? nk - nh) then
      Some (MissingKeyCondition (PTExpr_loc e), after_walk s ws)
    else Some (OK, after_walk s ws).
Proof.
  intros Hw Hhk Hkc Hwalk nh nk counters r.
  pose proof (PTExpr_Analyze_shape _ _ _ _ Hwalk) as (Hlen & _).
  simpl in Hlen. rewrite length_replicate in Hlen.
  unfold AnalyzeWhereExpr.
  change (PTExpr_Analyze e _) with (PTExpr_Analyze e (where_state_of s)).
  rewrite Hwalk. simpl. rewrite Hw.
  fold nh nk counters.
  rewrite any_from_existsb by (subst nh counters; lia).
  simpl. rewrite drop_0.
  destruct (existsb _ (take nh counters)); [done |].
  rewrite (count_from_filter _ (λ c, eq_count c ≠ 0)); cycle 1.
  { intros c. rewrite negb_true_iff, Nat.eqb_neq. done. }
  { subst nh nk counters. lia. }
  simpl. fold (range_eq_count counters nh nk). fold r.
  change (StaticColumnArgsOnly _) with (StaticColumnArgsOnly s).
  destruct (StaticColumnArgsOnly s) as [static_only |]; [| done]. simpl.
  replace (Z.of_nat r =? Z.of_nat nk - Z.of_nat nh)%Z with (r =? nk - nh); [done |].
  rewrite <- Nat2Z.inj_sub by done.
  destruct (Nat.eqb_spec r (nk - nh)) as [-> | Hne].
  - by rewrite Z.eqb_refl.
  - symmetry. apply Z.eqb_neq. lia.
Qed.

(** The post-pass of a read statement, on the key slots of the walk. *)
Lemma AnalyzeWhereExpr_read s e ws :
  write_only_ s = false →
  num_hash_key_columns_ s ≤ length (key_where_ops_ s) →
  PTExpr_Analyze e (where_state_of s) = Some (OK, ws) →
  let nh := num_hash_key_columns_ s in
  let key_ops := WhereExprState.key_ops_ ws in
  AnalyzeWhereExpr s e =
  if existsb (λ slot, negb (IsInitialized slot)) (take nh key_ops) then
    Some (OK, set_key_where_ops
                (set_where_ops s (filled_slots (take nh key_ops)
                                    ++ WhereExprState.ops_ ws)) [])
  else Some (OK, after_walk s ws).
Proof.
  intros Hw Hlen Hwalk nh key_ops.
  pose proof (PTExpr_Analyze_shape _ _ _ _ Hwalk) as (_ & Hk & _).
  simpl in Hk.
  unfold AnalyzeWhereExpr.
  change (PTExpr_Analyze e _) with (PTExpr_Analyze e (where_state_of s)).
  rewrite Hwalk. simpl. rewrite Hw.
  fold nh key_ops.
  rewrite any_from_existsb by (subst nh key_ops; lia).
  simpl. rewrite drop_0.
  destruct (existsb _ (take nh key_ops)); [| done].
  rewrite push_front_filled_spec by (subst nh key_ops; lia).
  done.
Qed.

End PostPass.

(** ** WHERE clauses *)

Section WhereClause.
Import PTDmlStmt.

(** C1: in a write statement whose WHERE clause has been walked, a hash column
    whose counter records no EQ makes [AnalyzeWhereExpr] fail with
    [MissingKeyCondition]; when every hash column records an EQ and the
    clustering columns meet the condition of the post-pass (all of them carry
    an EQ, or none does and the write is static-only), it succeeds. *)
Theorem C1_write_needs_eq_on_hash_columns s e ws :
  write_only_ s = true →
  num_hash_key_columns_ s ≤ num_key_columns_ s →
  num_key_columns_ s ≤ num_columns s →
  PTExpr_Analyze e (where_state_of s) = Some (OK, ws) →
  let nh := num_hash_key_columns_ s in
  let nk := num_key_columns_ s in
  let counters := WhereExprState.op_counters_ ws in
  ((∃ idx c, idx < nh ∧ counters !! idx = Some c ∧ eq_count c = 0) →
   AnalyzeWhereExpr s e = Some (MissingKeyCondition (PTExpr_loc e), after_walk s ws))
  ∧ ((∀ idx c, idx < nh → counters !! idx = Some c → 1 ≤ eq_count c) →
     ∀ static_only, StaticColumnArgsOnly s = Some static_only →
     range_eq_count counters nh nk = nk - nh
     ∨ (static_only = true ∧ range_eq_count counters nh nk = 0) →
     ∃ s', AnalyzeWhereExpr s e = Some (OK, s')).
Proof.
  intros Hw Hhk Hkc Hwalk nh nk counters.
  rewrite (AnalyzeWhereExpr_write s e ws Hw Hhk Hkc Hwalk).
  fold nh nk counters. split.
  - intros (idx & c & Hidx & Hc & Heq).
    assert (existsb (λ c, eq_count c =? 0) (take nh counters) = true) as ->; [| done].
    apply existsb_take. exists idx, c. by rewrite Heq.
  - intros Hall static_only Hso Hrange.
    assert (existsb (λ c, eq_count c =? 0) (take nh counters) = false) as ->.
    { apply not_true_iff_false. intros (idx & c & Hidx & Hc & Heq)%existsb_take.
      apply Nat.eqb_eq in Heq. specialize (Hall _ _ Hidx Hc). lia. }
    rewrite Hso. simpl.
    destruct Hrange as [-> | [-> ->]].
    + rewrite Nat.eqb_refl. simpl. destruct static_only; [| by eexists].
      destruct (nk - nh =? 0); by eexists.
    + simpl. rewrite andb_false_r. by eexists.
Qed.

(** [UPDATE T SET r = 1 WHERE c = 4]: no EQ on the hash column [h]. *)
Lemma C1_witness :
  AnalyzeWhereExpr
    (stmt_T true (Some [None; None; None; arg col_r]) [None; None] [])
    (cmp YQL_OP_EQUAL col_c 4)
  = Some (MissingKeyCondition 7,
          stmt_T true (Some [None; None; None; arg col_r])
            [None; Some (col_op YQL_OP_EQUAL col_c 4)] []).
Proof.
  pose proof (C1_write_needs_eq_on_hash_columns
                (stmt_T true (Some [None; None; None; arg col_r]) [None; None] [])
                (cmp YQL_OP_EQUAL col_c 4)
                (state_T true [None; Some (col_op YQL_OP_EQUAL col_c 4)] []
                   [zero_counter; counter 0 0 1; zero_counter; zero_counter]))
    as Hpost.
  destruct Hpost as [Hmissing _].
  - reflexivity.
  - vm_compute. lia.
  - vm_compute. lia.
  - reflexivity.
  - apply Hmissing. exists 0, zero_counter.
    split; [vm_compute; lia | split; reflexivity].
Defined.

(** C6: in a write statement whose hash columns all carry an EQ, with [r] the
    number of clustering columns that carry an EQ: a static-only write
    succeeds exactly when [r] is the number of clustering columns or 0, and
    with [r = 0] its key slots are cut down to the hash columns; any other
    write succeeds exactly when [r] is the number of clustering columns.
    Every failure is [MissingKeyCondition]. *)
Theorem C6_write_range_keys s e ws static_only :
  write_only_ s = true →
  num_hash_key_columns_ s ≤ num_key_columns_ s →
  num_key_columns_ s ≤ num_columns s →
  num_hash_key_columns_ s ≤ length (key_where_ops_ s) →
  PTExpr_Analyze e (where_state_of s) = Some (OK, ws) →
  (∀ idx c, idx < num_hash_key_columns_ s →
            WhereExprState.op_counters_ ws !! idx = Some c → eq_count c ≠ 0) →
  StaticColumnArgsOnly s = Some static_only →
  let nh := num_hash_key_columns_ s in
  let nk := num_key_columns_ s in
  let r := range_eq_count (WhereExprState.op_counters_ ws) nh nk in
  ∃ st s', AnalyzeWhereExpr s e = Some (st, s')
    ∧ (st = OK ∨ st = MissingKeyCondition (PTExpr_loc e))
    ∧ (static_only = true → (st = OK ↔ r = nk - nh ∨ r = 0))
    ∧ (static_only = false → (st = OK ↔ r = nk - nh))
    ∧ (st = OK → static_only = true → r = 0 →
       key_where_ops_ s' = take nh (WhereExprState.key_ops_ ws)
       ∧ length (key_where_ops_ s') = nh)
    ∧ (st = OK → static_only = false ∨ r ≠ 0 →
       key_where_ops_ s' = WhereExprState.key_ops_ ws).
Proof.
  intros Hw Hhk Hkc Hlen Hwalk Hall Hso nh nk r.
  pose proof (PTExpr_Analyze_shape _ _ _ _ Hwalk) as (_ & Hk & _).
  simpl in Hk.
  rewrite (AnalyzeWhereExpr_write s e ws Hw Hhk Hkc Hwalk).
  fold nh nk r.
  assert (existsb (λ c, eq_count c =? 0)
            (take nh (WhereExprState.op_counters_ ws)) = false) as ->.
  { apply not_true_iff_false. intros (idx & c & Hidx & Hc & Heq)%existsb_take.
    apply Nat.eqb_eq in Heq. by apply (Hall _ _ Hidx Hc). }
  rewrite Hso. simpl.
  destruct static_only.
  - destruct (Nat.eqb_spec r (nk - nh)) as [Hr | Hr];
      destruct (Nat.eqb_spec r 0) as [Hz | Hz]; simpl.
    all: eexists _, _; split; [done |].
    all: repeat split; intros; simpl; try done; auto.
    all: try (by apply resize_le; fold nh; lia).
    all: try (by rewrite length_resize).
    all: try (intuition (congruence || lia)).
  - destruct (Nat.eqb_spec r (nk - nh)) as [Hr | Hr]; simpl.
    all: eexists _, _; split; [done |].
    all: repeat split; intros; simpl; try done; auto.
Qed.

(** [UPDATE T SET s = 1 WHERE h = 5]: static-only, no clustering predicate;
    the key slots are cut down to the hash column. *)
Lemma C6_witness :
  ∃ s',
    AnalyzeWhereExpr
      (stmt_T true (Some [None; None; arg col_s; None]) [None; None] [])
      (cmp YQL_OP_EQUAL col_h 5) = Some (OK, s')
    ∧ key_where_ops_ s' = [Some (col_op YQL_OP_EQUAL col_h 5)]
    ∧ length (key_where_ops_ s') = 1.
Proof.
  destruct (C6_write_range_keys
              (stmt_T true (Some [None; None; arg col_s; None]) [None; None] [])
              (cmp YQL_OP_EQUAL col_h 5)
              (state_T true [Some (col_op YQL_OP_EQUAL col_h 5); None] []
                 [counter 0 0 1; zero_counter; zero_counter; zero_counter])
              true)
    as (st & s' & Hrun & _ & Hstatic & _ & Hshrunk & _).
  - reflexivity.
  - vm_compute. lia.
  - vm_compute. lia.
  - vm_compute. lia.
  - reflexivity.
  - intros [| idx] c Hidx Hc.
    + injection Hc as <-. discriminate.
    + vm_compute in Hidx. lia.
  - reflexivity.
  - assert (st = OK) as -> by (apply Hstatic; [reflexivity | right; reflexivity]).
    exists s'. split; [exact Hrun |].
    apply Hshrunk; reflexivity.
Defined.

(** C5: in a read statement whose walk left a hash slot empty, the post-pass
    puts the initialised hash slots, in ascending slot order, in front of the
    filters collected by the walk, and empties the key slots; when every hash
    slot is initialised, key slots and filters stay as the walk left them. *)
Theorem C5_read_partial_hash_key s e ws :
  write_only_ s = false →
  num_hash_key_columns_ s ≤ length (key_where_ops_ s) →
  PTExpr_Analyze e (where_state_of s) = Some (OK, ws) →
  let nh := num_hash_key_columns_ s in
  let key_ops := WhereExprState.key_ops_ ws in
  ((∃ idx, idx < nh ∧ key_ops !! idx = Some None) →
   AnalyzeWhereExpr s e =
   Some (OK, set_key_where_ops
               (set_where_ops s (filled_slots (take nh key_ops)
                                   ++ WhereExprState.ops_ ws)) []))
  ∧ ((∀ idx, idx < nh → ∃ c, key_ops !! idx = Some (Some c)) →
     AnalyzeWhereExpr s e = Some (OK, after_walk s ws)).
Proof.
  intros Hw Hlen Hwalk nh key_ops.
  rewrite (AnalyzeWhereExpr_read s e ws Hw Hlen Hwalk).
  fold nh key_ops. split.
  - intros (idx & Hidx & Hslot).
    assert (existsb (λ slot, negb (IsInitialized slot)) (take nh key_ops) = true)
      as ->; [| done].
    apply existsb_take. by exists idx, None.
  - intros Hall.
    assert (existsb (λ slot, negb (IsInitialized slot)) (take nh key_ops) = false)
      as ->; [| done].
    apply not_true_iff_false. intros (idx & slot & Hidx & Hslot & Hempty)%existsb_take.
    destruct (Hall _ Hidx) as [c Hc]. rewrite Hc in Hslot.
    by simplify_eq.
Qed.

(** [SELECT ... FROM U WHERE c > 3 AND h2 = 7]: [h1] is missing, so [h2 = 7]
    moves in front of [c > 3] and the key slots are emptied. *)
Lemma C5_witness :
  AnalyzeWhereExpr (stmt_U false None [None; None] [])
    (PTLogicAnd 3 (cmp YQL_OP_GREATER_THAN col_c2 3) (cmp YQL_OP_EQUAL col_h2 7))
  = Some (OK, stmt_U false None []
                [col_op YQL_OP_EQUAL col_h2 7; col_op YQL_OP_GREATER_THAN col_c2 3]).
Proof.
  pose proof (C5_read_partial_hash_key
                (stmt_U false None [None; None] [])
                (PTLogicAnd 3 (cmp YQL_OP_GREATER_THAN col_c2 3)
                   (cmp YQL_OP_EQUAL col_h2 7))
                (state_T false [None; Some (col_op YQL_OP_EQUAL col_h2 7)]
                   [col_op YQL_OP_GREATER_THAN col_c2 3]
                   [zero_counter; counter 0 0 1; counter 1 0 0]))
    as Hpost.
  destruct Hpost as [Hpartial _].
  - reflexivity.
  - vm_compute. lia.
  - reflexivity.
  - apply Hpartial. exists 0. split; [vm_compute; lia | reflexivity].
Defined.

(** C4 (as the code has it): when [AnalyzeWhereExpr] fails, in the walk or in
    the post-pass, nothing is rolled back: the statement keeps the filters and
    the key slots exactly as the walk left them, which extend the ones it had.
    In a conjunction whose left operand was accepted, what the left operand
    collected is still there after the failure. *)
Theorem C4_failure_keeps_partial_results s e st s' :
  AnalyzeWhereExpr s e = Some (st, s') →
  ok st = false →
  (∃ st0 ws, PTExpr_Analyze e (where_state_of s) = Some (st0, ws)
     ∧ s' = after_walk s ws
     ∧ where_ops_ s `prefix_of` where_ops_ s'
     ∧ slot_kept (key_where_ops_ s) (key_where_ops_ s'))
  ∧ (∀ l lhs rhs ws1,
       e = PTLogicAnd l lhs rhs →
       PTExpr_Analyze lhs (where_state_of s) = Some (OK, ws1) →
       WhereExprState.ops_ ws1 `prefix_of` where_ops_ s'
       ∧ slot_kept (WhereExprState.key_ops_ ws1) (key_where_ops_ s')).
Proof.
  intros Hrun Hst.
  assert (∃ st0 ws, PTExpr_Analyze e (where_state_of s) = Some (st0, ws)
                    ∧ s' = after_walk s ws) as (st0 & ws & Hwalk & ->).
  { unfold AnalyzeWhereExpr in Hrun.
    change (PTExpr_Analyze e _) with (PTExpr_Analyze e (where_state_of s)) in Hrun.
    destruct (PTExpr_Analyze e (where_state_of s)) as [[st0 ws] |]; [| done].
    exists st0, ws. split; [done |].
    simpl in Hrun. fold (after_walk s ws) in Hrun.
    repeat (case_match; simplify_option_eq); try done. }
  split.
  - exists st0, ws. split; [done |]. split; [done |].
    by apply PTExpr_Analyze_shape in Hwalk as (_ & _ & _ & Hp & Hk).
  - intros l lhs rhs ws1 -> Hlhs. simpl in Hwalk. rewrite Hlhs in Hwalk.
    by apply PTExpr_Analyze_shape in Hwalk as (_ & _ & _ & Hp & Hk).
Qed.

(** [SELECT ... FROM T WHERE h = 5 AND c > 3 AND r = 1], which fails on [r]. *)
Lemma C4_witness :
  [col_op YQL_OP_GREATER_THAN col_c 3]
    `prefix_of` where_ops_ (stmt_T false None [Some (col_op YQL_OP_EQUAL col_h 5)]
                              [col_op YQL_OP_GREATER_THAN col_c 3])
  ∧ slot_kept [Some (col_op YQL_OP_EQUAL col_h 5)]
      (key_where_ops_ (stmt_T false None [Some (col_op YQL_OP_EQUAL col_h 5)]
                         [col_op YQL_OP_GREATER_THAN col_c 3])).
Proof.
  pose proof (C4_failure_keeps_partial_results
                (stmt_T false None [None] [])
                (PTLogicAnd 3
                   (PTLogicAnd 3 (cmp YQL_OP_EQUAL col_h 5)
                      (cmp YQL_OP_GREATER_THAN col_c 3))
                   (cmp YQL_OP_EQUAL col_r 1))
                (NonKeyColumnInWhere 7)
                (stmt_T false None [Some (col_op YQL_OP_EQUAL col_h 5)]
                   [col_op YQL_OP_GREATER_THAN col_c 3])
                eq_refl eq_refl) as [_ Hleft].
  apply (Hleft 3
           (PTLogicAnd 3 (cmp YQL_OP_EQUAL col_h 5) (cmp YQL_OP_GREATER_THAN col_c 3))
           (cmp YQL_OP_EQUAL col_r 1)
           (state_T false [Some (col_op YQL_OP_EQUAL col_h 5)]
              [col_op YQL_OP_GREATER_THAN col_c 3]
              [counter 0 0 1; counter 1 0 0; zero_counter; zero_counter])).
  - reflexivity.
  - reflexivity.
Defined.

(** C4, refuted as stated: the read statement
    [SELECT ... FROM T WHERE h = 5 AND c > 3 AND r = 1] fails on its last
    comparison, and the statement is left with [h = 5] in its key slot and
    [c > 3] among its filters. *)
Lemma C4_counterexample :
  AnalyzeWhereClause (stmt_T false None [] [])
    (Some (PTLogicAnd 3
             (PTLogicAnd 3 (cmp YQL_OP_EQUAL col_h 5)
                (cmp YQL_OP_GREATER_THAN col_c 3))
             (cmp YQL_OP_EQUAL col_r 1)))
  = Some (NonKeyColumnInWhere 7,
          stmt_T false None [Some (col_op YQL_OP_EQUAL col_h 5)]
            [col_op YQL_OP_GREATER_THAN col_c 3]).
Proof. reflexivity. Qed.

(** Without a WHERE clause a write is rejected and a read is a full scan. *)
Lemma AnalyzeWhereClause_no_clause s :
  AnalyzeWhereClause s None =
  Some (if write_only_ s then MissingPartitionKey (loc_ s) else OK, s).
Proof. unfold AnalyzeWhereClause. by destruct (write_only_ s). Qed.

End WhereClause.

(** ** Static-only writes *)

Section StaticOnly.
Import PTDmlStmt.

(** C3 (as the code has it): with the column arguments of a write in place,
    [StaticColumnArgsOnly] returns true exactly when (a) at least one
    populated argument beyond the key columns is on a static column, (b) no
    populated argument lies in the clustering-key range, and (c) every
    populated argument beyond the key columns is on a static column. *)
Theorem C3_static_column_args_only s column_args :
  column_args_ s = Some column_args →
  column_args = [] ∨ num_key_columns_ s ≤ length column_args →
  let nh := num_hash_key_columns_ s in
  let nk := num_key_columns_ s in
  ∃ b, StaticColumnArgsOnly s = Some b
    ∧ (b = true ↔
       (∃ i a, nk ≤ i ∧ column_args !! i = Some (Some a)
               ∧ is_static (arg_desc a) = true)
       ∧ (∀ i a, nh ≤ i < nk → column_args !! i ≠ Some (Some a))
       ∧ (∀ i a, nk ≤ i → column_args !! i = Some (Some a) →
                 is_static (arg_desc a) = true)).
Proof.
  intros Hargs Hlen nh nk. unfold StaticColumnArgsOnly. rewrite Hargs. simpl.
  clear Hargs. destruct column_args as [| a0 rest].
  { exists false. split; [done |]. split; [done |].
    intros ((i & a & _ & Hi & _) & _). by rewrite lookup_nil in Hi. }
  destruct Hlen as [? | Hlen]; [done |].
  cbv beta iota. fold nh nk.
  remember (a0 :: rest) as column_args eqn:Hshape. clear Hshape a0 rest.
  assert (any_from IsInitialized column_args nh (nk - nh)
          = Some (existsb IsInitialized (take (nk - nh) (drop nh column_args))))
    as ->.
  { destruct (decide (nh ≤ nk)) as [Hle | Hgt].
    - apply any_from_existsb. fold nk in Hlen. lia.
    - by replace (nk - nh) with 0 by lia. }
  simpl.
  destruct (static_scan_spec column_args nk (length column_args - nk) false false)
    as (flags & -> & Hflags); [fold nk in Hlen; lia |].
  simpl in *. eexists. split; [done |].
  rewrite <- andb_assoc, (andb_comm (negb _) (negb (snd flags))), andb_assoc, Hflags.
  rewrite !andb_true_iff, !negb_true_iff.
  rewrite <- !not_true_iff_false, !existsb_window.
  split.
  - intros [[(i & x & Hi & Hx & Hs) Hnon] Hrange]. repeat split.
    + destruct x as [a |]; [| done]. exists i, a. repeat split; (lia || done).
    + intros j a Hj Hja. apply Hrange. exists j, (Some a).
      repeat split; (lia || done).
    + intros j a Hj Hja. destruct (is_static (arg_desc a)) eqn:Hst; [done |].
      exfalso. apply Hnon. exists j, (Some a).
      apply lookup_lt_Some in Hja as Hlt.
      repeat split; try (lia || done). simpl. by rewrite Hst.
  - intros ((i & a & Hi & Hia & Hs) & Hrange & Hall). repeat split.
    + exists i, (Some a). apply lookup_lt_Some in Hia as Hlt.
      repeat split; (lia || done).
    + intros (j & x & Hj & Hx & Hn). destruct x as [a' |]; [| done].
      simpl in Hn. rewrite (Hall j a') in Hn; [done | lia | done].
    + intros (j & x & Hj & Hx & Hn). destruct x as [a' |]; [| done].
      apply (Hrange j a'); [lia | done].
Qed.

(** [h] and the static column [s] populated on [T]. *)
Lemma C3_witness :
  ∃ b, StaticColumnArgsOnly
         (stmt_T true (Some [arg col_h; None; arg col_s; None]) [] []) = Some b
    ∧ (b = true ↔
       (∃ i a, 2 ≤ i ∧ [arg col_h; None; arg col_s; None] !! i = Some (Some a)
               ∧ is_static (arg_desc a) = true)
       ∧ (∀ i a, 1 ≤ i < 2 → [arg col_h; None; arg col_s; None] !! i ≠ Some (Some a))
       ∧ (∀ i a, 2 ≤ i → [arg col_h; None; arg col_s; None] !! i = Some (Some a) →
                 is_static (arg_desc a) = true)).
Proof.
  apply (C3_static_column_args_only
           (stmt_T true (Some [arg col_h; None; arg col_s; None]) [] [])
           [arg col_h; None; arg col_s; None]).
  - reflexivity.
  - right. vm_compute. lia.
Defined.

(** C3, refuted as stated: on [T], with the hash column [h] as the only
    populated argument, an argument is populated, none lies in the
    clustering-key range, and no populated argument beyond the key columns is
    regular; yet the write is not static-only. *)
Lemma C3_counterexample :
  let column_args := [arg col_h; None; None; None] in
  (∃ i a, column_args !! i = Some (Some a))
  ∧ (∀ i a, 1 ≤ i < 2 → column_args !! i ≠ Some (Some a))
  ∧ (∀ i a, 2 ≤ i → column_args !! i = Some (Some a) →
            is_static (arg_desc a) = true)
  ∧ StaticColumnArgsOnly (stmt_T true (Some column_args) [] []) = Some false.
Proof.
  repeat split.
  - by exists 0, {| arg_desc := col_h; arg_expr := lit 1 |}.
  - intros [| [| [| [| i]]]] a Hi; simpl; try done; lia.
  - intros [| [| [| [| i]]]] a Hi; simpl; try done; lia.
Qed.

End StaticOnly.

(** ** USING clause *)

Section UsingClause.
Import PTDmlStmt.

(** C9: without a TTL [AnalyzeUsingClause] succeeds; with one it fails with
    [InvalidTtl], whose message carries both bounds, exactly when the value
    lies outside [[kMinTtlSeconds, kMaxTtlSeconds]], and succeeds otherwise;
    a TTL of -1 fails and a TTL of 0 succeeds. *)
Theorem C9_ttl_range s :
  match ttl_seconds_ s with
  | None => AnalyzeUsingClause s = OK
  | Some ttl =>
      (AnalyzeUsingClause s = InvalidTtl (const_loc ttl) ↔
       ¬ (kMinTtlSeconds ≤ Eval ttl ≤ kMaxTtlSeconds)%Z)
      ∧ (AnalyzeUsingClause s = OK ↔
         (kMinTtlSeconds ≤ Eval ttl ≤ kMaxTtlSeconds)%Z)
      ∧ (Eval ttl = (-1)%Z → AnalyzeUsingClause s = InvalidTtl (const_loc ttl))
      ∧ (Eval ttl = 0%Z → AnalyzeUsingClause s = OK)
      ∧ InvalidTtl (const_loc ttl) =
        Error (const_loc ttl) (Some "Valid ttl range : [0, 630720000]")
          INVALID_ARGUMENTS
  end.
Proof.
  unfold AnalyzeUsingClause. destruct (ttl_seconds_ s) as [ttl |]; [| done].
  unfold IsValidTTLSeconds.
  change (Error (const_loc ttl) (Some (Substitute _ _)) INVALID_ARGUMENTS)
    with (InvalidTtl (const_loc ttl)).
  destruct (Z.leb_spec kMinTtlSeconds (Eval ttl));
    destruct (Z.leb_spec (Eval ttl) kMaxTtlSeconds); simpl.
  all: repeat split; try done; try lia.
  all: try (intros; unfold kMinTtlSeconds, kMaxTtlSeconds in *; lia).
Qed.

(** TTL -1 and TTL 0. *)
Lemma C9_witness :
  AnalyzeUsingClause (make name_T 1 2 true (Some (lit (-1)))) = InvalidTtl 0
  ∧ AnalyzeUsingClause (make name_T 1 2 true (Some (lit 0))) = OK.
Proof.
  split.
  - pose proof (C9_ttl_range (make name_T 1 2 true (Some (lit (-1)))))
      as (_ & _ & Hminus & _).
    apply Hminus. reflexivity.
  - pose proof (C9_ttl_range (make name_T 1 2 true (Some (lit 0))))
      as (_ & _ & _ & Hzero & _).
    apply Hzero. reflexivity.
Defined.

End UsingClause.

(** ** Table lookup *)

Section TableLookup.
Import PTDmlStmt.

Variable is_system : YBTableName → bool.
Variable FLAGS_yb_system_namespace_readonly : bool.
Variable ToInternalDataType : DataType → InternalType.
Variable MapSymbol : SemContext → string → ColumnDesc → Status * SemContext.

(** C10: [LookupTable] tests the system keyspace before it asks the catalog.
    A write to a name in the system keyspace, with the protection flag set,
    fails with [SystemNamespaceReadOnly] whatever the catalog holds, in
    particular when the table does not exist; [TableNotFound] is the answer
    for a missing table only once that test has passed, and a lookup that
    ends in [TableNotFound] has passed it. *)
Theorem C10_system_check_before_catalog sem_context s :
  let name := resolved_name sem_context s in
  let blocked := is_system name && write_only_ s && FLAGS_yb_system_namespace_readonly in
  let run := LookupTable is_system FLAGS_yb_system_namespace_readonly
               ToInternalDataType MapSymbol sem_context s in
  (blocked = true →
   run = (SystemNamespaceReadOnly (table_loc_ s),
          set_is_system s (is_system name), sem_context))
  ∧ (blocked = false → GetTableDesc sem_context name = None →
     run = (TableNotFound (table_loc_ s),
            set_table (set_is_system s (is_system name)) None, sem_context))
  ∧ (∀ l, run.1.1 = TableNotFound l → blocked = false).
Proof.
  intros name blocked run. subst run. unfold LookupTable.
  assert ((if negb (has_namespace (name_ s))
           then set_namespace_name (name_ s) (CurrentKeyspace sem_context)
           else name_ s) = name) as ->.
  { subst name. unfold resolved_name. by destruct (has_namespace (name_ s)). }
  simpl. fold blocked.
  destruct blocked; simpl.
  - split; [done |]. split; [done |]. intros l Hl. discriminate Hl.
  - split; [done |]. split; [| done].
    intros _ Hmissing. by rewrite Hmissing.
Qed.

End TableLookup.

(** A write to table [T] of the system keyspace, absent from the catalog. *)
Lemma C10_witness :
  PTDmlStmt.LookupTable is_system_name true (λ t, t) map_symbol_ok sem_system
    (PTDmlStmt.make name_T 1 2 true None)
  = (SystemNamespaceReadOnly 1,
     PTDmlStmt.set_is_system (PTDmlStmt.make name_T 1 2 true None) true,
     sem_system).
Proof.
  pose proof (C10_system_check_before_catalog is_system_name true (λ t, t)
                map_symbol_ok sem_system (PTDmlStmt.make name_T 1 2 true None))
    as [Hblocked _].
  apply Hblocked. reflexivity.
Defined.

(** ** The statements of the specification's examples, on [T] *)

(** [UPDATE T SET s = 1 WHERE h = 5] *)
Example update_static_column :
  PTDmlStmt.AnalyzeWhereClause
    (stmt_T true (Some [None; None; arg col_s; None]) [] [])
    (Some (cmp YQL_OP_EQUAL col_h 5))
  = Some (OK, stmt_T true (Some [None; None; arg col_s; None])
                [Some (col_op YQL_OP_EQUAL col_h 5)] []).
Proof. reflexivity. Qed.

(** [UPDATE T SET r = 1 WHERE h = 5] *)
Example update_regular_column :
  PTDmlStmt.AnalyzeWhereClause
    (stmt_T true (Some [None; None; None; arg col_r]) [] [])
    (Some (cmp YQL_OP_EQUAL col_h 5))
  = Some (MissingKeyCondition 7,
          stmt_T true (Some [None; None; None; arg col_r])
            [Some (col_op YQL_OP_EQUAL col_h 5); None] []).
Proof. reflexivity. Qed.

(** [SELECT * FROM T WHERE h = 5 AND c > 3] *)
Example select_hash_and_range :
  PTDmlStmt.AnalyzeWhereClause (stmt_T false None [] [])
    (Some (PTLogicAnd 3 (cmp YQL_OP_EQUAL col_h 5) (cmp YQL_OP_GREATER_THAN col_c 3)))
  = Some (OK, stmt_T false None [Some (col_op YQL_OP_EQUAL col_h 5)]
                [col_op YQL_OP_GREATER_THAN col_c 3]).
Proof. reflexivity. Qed.

(** [SELECT * FROM T WHERE c > 3] *)
Example select_range_only :
  PTDmlStmt.AnalyzeWhereClause (stmt_T false None [] [])
    (Some (cmp YQL_OP_GREATER_THAN col_c 3))
  = Some (OK, stmt_T false None [] [col_op YQL_OP_GREATER_THAN col_c 3]).
Proof. reflexivity. Qed.

(** [LookupTable] on a catalog that holds [T], from an unqualified name. *)
Example lookup_T :
  let schema_T :=
    {| columns := [({| col_name := "h"; col_type := 4; col_is_static := false |}, 10);
                   ({| col_name := "c"; col_type := 4; col_is_static := false |}, 11);
                   ({| col_name := "s"; col_type := 4; col_is_static := true |}, 12);
                   ({| col_name := "r"; col_type := 4; col_is_static := false |}, 13)];
       num_key_columns := 2;
       num_hash_key_columns := 1 |} in
  let sem_context :=
    {| CurrentKeyspace := "ks";
       GetTableDesc := λ _, Some {| schema := schema_T |};
       symtab := ∅ |} in
  let result :=
    PTDmlStmt.LookupTable is_system_name true (λ t, t) map_symbol_ok sem_context
      (PTDmlStmt.make name_T 1 2 true None) in
  result.1.1 = OK
  ∧ PTDmlStmt.table_columns_ result.1.2 = [Some col_h; Some col_c; Some col_s; Some col_r]
  ∧ PTDmlStmt.num_key_columns_ result.1.2 = 2
  ∧ PTDmlStmt.num_hash_key_columns_ result.1.2 = 1
  ∧ symtab result.2 !! "s" = Some col_s.
Proof. repeat split; reflexivity. Qed.

(** * Further properties *)

(** ** One comparison, continued *)

Section ColumnOpTable.
Import WhereExprState.

Ltac column_op_cases H :=
  unfold AnalyzeColumnOp, init_key_op in H;
  match type of H with
  | context [op_counters_ ?st !! ?i] =>
      let Hc := fresh "Hcounter" in
      destruct (op_counters_ st !! i) eqn:Hc; simpl in H; [| done]
  end;
  repeat case_match; simplify_eq; simpl in *;
  try case_decide; simplify_eq; simpl in *.

Ltac counts_to_prop :=
  repeat match goal with
  | H : _ || _ = true |- _ => apply orb_true_iff in H as [H | H]
  | H : _ || _ = false |- _ => apply orb_false_iff in H as [? ?]
  | H : (0 <? _) = true |- _ => apply Nat.ltb_lt in H
  | H : (0 <? _) = false |- _ => apply Nat.ltb_ge in H
  end.

(** X1: the complete acceptance table of [AnalyzeColumnOp]. A comparison is
    accepted exactly when it is an EQ on a key column whose counter records
    nothing, or, in a read statement, an LT-family (GT-family) comparison on a
    clustering column whose counter records no EQ and no LT-family
    (GT-family) comparison. *)
Theorem X1_accepted_iff st rel col v s st' :
  AnalyzeColumnOp st rel col v = Some (s, st') →
  ∃ c, op_counters_ st !! index col = Some c
    ∧ (s = OK ↔
       (yql_op rel = YQL_OP_EQUAL
        ∧ eq_count c = 0 ∧ lt_count c = 0 ∧ gt_count c = 0
        ∧ (is_hash col = true ∨ is_primary col = true))
       ∨ (is_lt_family (yql_op rel) = true
          ∧ is_hash col = false ∧ is_primary col = true ∧ write_only_ st = false
          ∧ eq_count c = 0 ∧ lt_count c = 0)
       ∨ (is_gt_family (yql_op rel) = true
          ∧ is_hash col = false ∧ is_primary col = true ∧ write_only_ st = false
          ∧ eq_count c = 0 ∧ gt_count c = 0)).
Proof.
  intros H. column_op_cases H.
  all: eexists; split; [done |].
  all: counts_to_prop.
  all: split;
    [ intros Hs; try discriminate Hs;
      first [ left; repeat split; (lia || auto); fail
            | right; left; repeat split; (lia || done)
            | right; right; repeat split; (lia || done) ]
    | intros [Hs | [Hs | Hs]]; destruct_and?; simplify_eq; simpl in *;
      try done; try lia; try (destruct_or?; congruence) ].
Qed.

(** [c >= 3] after [c < 5] in a read statement on [T]. *)
Lemma X1_witness :
  ∃ c, [zero_counter; counter 0 1 0; zero_counter; zero_counter] !! 1 = Some c
    ∧ (OK = OK ↔
       (YQL_OP_GREATER_THAN_EQUAL = YQL_OP_EQUAL
        ∧ eq_count c = 0 ∧ lt_count c = 0 ∧ gt_count c = 0
        ∧ (false = true ∨ true = true))
       ∨ (false = true
          ∧ false = false ∧ true = true ∧ false = false
          ∧ eq_count c = 0 ∧ lt_count c = 0)
       ∨ (true = true
          ∧ false = false ∧ true = true ∧ false = false
          ∧ eq_count c = 0 ∧ gt_count c = 0)).
Proof.
  apply (X1_accepted_iff
           (state_T false [None] [col_op YQL_OP_LESS_THAN col_c 5]
              [zero_counter; counter 0 1 0; zero_counter; zero_counter])
           (rel YQL_OP_GREATER_THAN_EQUAL) col_c (lit 3) OK
           (state_T false [None]
              [col_op YQL_OP_LESS_THAN col_c 5;
               col_op YQL_OP_GREATER_THAN_EQUAL col_c 3]
              [zero_counter; counter 1 1 0; zero_counter; zero_counter])).
  reflexivity.
Defined.

(** X2: a rejected comparison leaves the filters, the key slots and the flag
    as they were. The counters are untouched too, with exactly one
    exception: an EQ on a regular column whose counter records nothing fails
    with [NonKeyColumnInWhere] after the eq count of that column has been
    increased, and nothing else has changed. *)
Theorem X2_rejection_effect st rel col v s st' :
  AnalyzeColumnOp st rel col v = Some (s, st') →
  ok s = false →
  ops_ st' = ops_ st
  ∧ key_ops_ st' = key_ops_ st
  ∧ write_only_ st' = write_only_ st
  ∧ ∃ c, op_counters_ st !! index col = Some c
      ∧ (yql_op rel = YQL_OP_EQUAL
         ∧ is_hash col = false ∧ is_primary col = false
         ∧ eq_count c = 0 ∧ lt_count c = 0 ∧ gt_count c = 0 →
         s = NonKeyColumnInWhere (rel_loc rel)
         ∧ st' = set_counter st (index col) (increase_eq c)
         ∧ op_counters_ st' !! index col = Some (increase_eq c)
         ∧ eq_count (increase_eq c) = 1)
      ∧ (¬ (yql_op rel = YQL_OP_EQUAL
            ∧ is_hash col = false ∧ is_primary col = false
            ∧ eq_count c = 0 ∧ lt_count c = 0 ∧ gt_count c = 0) →
         st' = st).
Proof.
  intros H Hs. column_op_cases H; try done.
  all: counts_to_prop.
  all: split; [done |]; split; [done |]; split; [done |].
  all: eexists; split; [done |].
  all: split;
    [ intros (Hop & Hh & Hp & He & Hl & Hg);
      try congruence; try lia
    | intros Hnot; try done ].
  - repeat split; [| simpl; lia].
    apply list_lookup_insert_eq. by eapply lookup_lt_Some.
  - exfalso. apply Hnot. repeat split; (done || lia).
Qed.

(** [r = 1] as the first comparison of a read statement on [T]. *)
Lemma X2_witness :
  let st := state_T false [None] [] (replicate 4 zero_counter) in
  let st' := state_T false [None] []
               [zero_counter; zero_counter; zero_counter; counter 0 0 1] in
  ops_ st' = ops_ st
  ∧ key_ops_ st' = key_ops_ st
  ∧ write_only_ st' = write_only_ st
  ∧ ∃ c, op_counters_ st !! 3 = Some c
      ∧ (YQL_OP_EQUAL = YQL_OP_EQUAL
         ∧ is_hash col_r = false ∧ is_primary col_r = false
         ∧ eq_count c = 0 ∧ lt_count c = 0 ∧ gt_count c = 0 →
         NonKeyColumnInWhere 7 = NonKeyColumnInWhere 7
         ∧ st' = set_counter st 3 (increase_eq c)
         ∧ op_counters_ st' !! 3 = Some (increase_eq c)
         ∧ eq_count (increase_eq c) = 1)
      ∧ (¬ (YQL_OP_EQUAL = YQL_OP_EQUAL
            ∧ is_hash col_r = false ∧ is_primary col_r = false
            ∧ eq_count c = 0 ∧ lt_count c = 0 ∧ gt_count c = 0) →
         st' = st).
Proof.
  apply (X2_rejection_effect
           (state_T false [None] [] (replicate 4 zero_counter))
           (rel YQL_OP_EQUAL) col_r (lit 1) (NonKeyColumnInWhere 7)
           (state_T false [None] []
              [zero_counter; zero_counter; zero_counter; counter 0 0 1]));
    reflexivity.
Defined.

(** [h <= 5] in a write statement on [T], after an EQ on [h]. *)
Lemma X3_witness :
  AnalyzeColumnOp
    (state_T true [Some (col_op YQL_OP_EQUAL col_h 1); None] []
       [counter 0 0 1; zero_counter; zero_counter; zero_counter])
    (rel YQL_OP_LESS_THAN_EQUAL) col_h (lit 5)
  = Some (PartitionColumnInRangeExpr 7,
          state_T true [Some (col_op YQL_OP_EQUAL col_h 1); None] []
            [counter 0 0 1; zero_counter; zero_counter; zero_counter]).
Proof.
  apply (range_on_hash_column_rejected _ (rel YQL_OP_LESS_THAN_EQUAL) col_h (lit 5)
           (counter 0 0 1)); reflexivity.
Defined.

(** [c > 3] in a write statement on [T]. *)
Lemma X4_witness :
  AnalyzeColumnOp (state_T true [None; None] [] (replicate 4 zero_counter))
    (rel YQL_OP_GREATER_THAN) col_c (lit 3)
  = Some (RangeNotYetSupported 7,
          state_T true [None; None] [] (replicate 4 zero_counter)).
Proof.
  apply (range_on_write_rejected _ (rel YQL_OP_GREATER_THAN) col_c (lit 3)
           zero_counter); reflexivity.
Defined.

(** An operator with tag 13 on [h] in a read statement on [T]. *)
Lemma X5_witness :
  AnalyzeColumnOp (state_T false [None] [] (replicate 4 zero_counter))
    (rel (YQL_OP_OTHER 13)) col_h (lit 3)
  = Some (UnsupportedOperator 7, state_T false [None] [] (replicate 4 zero_counter)).
Proof.
  apply (other_operator_rejected _ (rel (YQL_OP_OTHER 13)) col_h (lit 3)
           zero_counter); reflexivity.
Defined.

(** *** What one comparison keeps *)

Lemma AnalyzeColumnOp_bounded st rel col v s st' :
  AnalyzeColumnOp st rel col v = Some (s, st') →
  counters_bounded (op_counters_ st) →
  counters_bounded (op_counters_ st').
Proof.
  intros H Hb. column_op_cases H; try done.
  all: apply Forall_insert; [done |].
  all: pose proof (Forall_lookup_1 _ _ _ _ Hb Hcounter) as (He & Hl & Hg).
  all: counts_to_prop; simpl; lia.
Qed.

Lemma AnalyzeColumnOp_write_ops st rel col v s st' :
  write_only_ st = true →
  AnalyzeColumnOp st rel col v = Some (s, st') →
  ops_ st' = ops_ st.
Proof. intros Hw H. column_op_cases H; congruence. Qed.

Lemma eq_in_slots_insert st i c o :
  eq_in_slots st →
  i < length (key_ops_ st) →
  op o = YQL_OP_EQUAL →
  index (desc o) = i →
  eq_in_slots {| ops_ := ops_ st;
                 key_ops_ := <[i := Some o]> (key_ops_ st);
                 op_counters_ := <[i := c]> (op_counters_ st);
                 write_only_ := write_only_ st |}.
Proof.
  intros Hinv Hi Ho Hidx j cj Hj Hpos. simpl in *.
  destruct (decide (i = j)) as [<- |].
  - exists o. by rewrite list_lookup_insert_eq.
  - rewrite list_lookup_insert_ne in Hj by done.
    destruct (Hinv j cj Hj Hpos) as (o' & Ho' & ?). exists o'.
    by rewrite list_lookup_insert_ne.
Qed.

Lemma AnalyzeColumnOp_eq_in_slots st rel col v st' :
  write_only_ st = true →
  AnalyzeColumnOp st rel col v = Some (OK, st') →
  eq_in_slots st →
  eq_in_slots st'.
Proof.
  intros Hw H Hinv. column_op_cases H; try congruence.
  all: by apply eq_in_slots_insert.
Qed.

Lemma filled_slots_insert {A} (l : list (option A)) i x :
  l !! i = Some None →
  length (filled_slots (<[i := Some x]> l)) = S (length (filled_slots l)).
Proof.
  revert i. induction l as [| slot l IH]; intros i Hi; [done |].
  destruct i as [| i]; simpl in *.
  - by simplify_eq.
  - unfold filled_slots in *. simpl.
    destruct slot; simpl; rewrite IH by done; done.
Qed.

(** An accepted comparison either fills the key slot of its column, which
    had no EQ recorded, or appends one filter. *)
Lemma AnalyzeColumnOp_accepted st rel col v st' :
  AnalyzeColumnOp st rel col v = Some (OK, st') →
  ∃ c, op_counters_ st !! index col = Some c
    ∧ ((eq_count c = 0
        ∧ index col < length (key_ops_ st)
        ∧ st' = {| ops_ := ops_ st;
                   key_ops_ := <[index col :=
                                   Some {| desc := col; expr := v; op := YQL_OP_EQUAL |}]>
                                 (key_ops_ st);
                   op_counters_ := <[index col := increase_eq c]> (op_counters_ st);
                   write_only_ := write_only_ st |})
       ∨ (∃ o c', eq_count c ≤ eq_count c'
            ∧ st' = {| ops_ := ops_ st ++ [o];
                       key_ops_ := key_ops_ st;
                       op_counters_ := <[index col := c']> (op_counters_ st);
                       write_only_ := write_only_ st |})).
Proof.
  intros H. column_op_cases H.
  all: eexists; split; [done |]; counts_to_prop.
  all: first
    [ left; split; [lia | by split]
    | right; eexists _, _; split;
      [| unfold push_back, set_counter; simpl;
         repeat match goal with
                | Hw : write_only_ _ = _ |- _ => rewrite Hw
                end;
         reflexivity ];
      simpl; lia ].
Qed.

Lemma AnalyzeColumnOp_conserves st rel col v st' :
  AnalyzeColumnOp st rel col v = Some (OK, st') →
  slots_recorded st →
  slots_recorded st'
  ∧ length (ops_ st') + length (filled_slots (key_ops_ st'))
    = S (length (ops_ st) + length (filled_slots (key_ops_ st))).
Proof.
  intros H Hrec.
  destruct (AnalyzeColumnOp_accepted _ _ _ _ _ H)
    as (c & Hc & [(Hzero & Hin & ->) | (o & c' & Hle & ->)]); simpl.
  - assert (key_ops_ st !! index col = Some None) as Hslot.
    { destruct (lookup_lt_is_Some_2 _ _ Hin) as [[o |] Hslot]; [| done].
      destruct (Hrec _ _ Hslot) as (c' & Hc' & Hpos). simplify_eq. lia. }
    split; [| rewrite (filled_slots_insert _ _ _ Hslot); lia].
    intros j o Hj. simpl in *.
    destruct (decide (index col = j)) as [<- |].
    + exists (increase_eq c). split; [| simpl; lia].
      apply list_lookup_insert_eq. by apply lookup_lt_Some in Hc.
    + rewrite list_lookup_insert_ne in Hj by done.
      rewrite list_lookup_insert_ne by done. by apply (Hrec j o).
  - split; [| rewrite length_app; simpl; lia].
    intros j o' Hj. simpl in *.
    destruct (Hrec _ _ Hj) as (cj & Hcj & Hpos).
    destruct (decide (index col = j)) as [<- |].
    + simplify_eq. exists c'. split; [| lia].
      apply list_lookup_insert_eq. by apply lookup_lt_Some in Hc.
    + exists cj. by rewrite list_lookup_insert_ne.
Qed.

(** *** What the walk keeps *)

Lemma PTExpr_Analyze_bounded e st s st' :
  PTExpr_Analyze e st = Some (s, st') →
  counters_bounded (op_counters_ st) →
  counters_bounded (op_counters_ st').
Proof.
  revert st s st'.
  induction e as [rel col v | l lhs IHl rhs IHr]; intros st s st' H Hb; simpl in H.
  - by eapply AnalyzeColumnOp_bounded.
  - destruct (PTExpr_Analyze lhs st) as [[s1 st1] |] eqn:Hl; [| done].
    apply IHl in Hl; [| done].
    destruct s1; simplify_eq; [| done]. by eapply IHr.
Qed.

Lemma PTExpr_Analyze_write_ops e st s st' :
  write_only_ st = true →
  PTExpr_Analyze e st = Some (s, st') →
  ops_ st' = ops_ st.
Proof.
  revert st s st'.
  induction e as [rel col v | l lhs IHl rhs IHr]; intros st s st' Hw H; simpl in H.
  - by eapply AnalyzeColumnOp_write_ops.
  - destruct (PTExpr_Analyze lhs st) as [[s1 st1] |] eqn:Hl; [| done].
    pose proof (PTExpr_Analyze_shape _ _ _ _ Hl) as (_ & _ & Hw1 & _).
    apply IHl in Hl; [| done].
    destruct s1; simplify_eq; [| done].
    apply IHr in H; congruence.
Qed.

Lemma PTExpr_Analyze_eq_in_slots e st st' :
  write_only_ st = true →
  PTExpr_Analyze e st = Some (OK, st') →
  eq_in_slots st →
  eq_in_slots st'.
Proof.
  revert st st'.
  induction e as [rel col v | l lhs IHl rhs IHr]; intros st st' Hw H Hinv; simpl in H.
  - by eapply AnalyzeColumnOp_eq_in_slots.
  - destruct (PTExpr_Analyze lhs st) as [[s1 st1] |] eqn:Hl; [| done].
    destruct s1; simplify_eq.
    pose proof (PTExpr_Analyze_shape _ _ _ _ Hl) as (_ & _ & Hw1 & _).
    apply (IHr st1 st'); [congruence | done | by eapply IHl].
Qed.

(** X6: on every path through the walk, accepted or not, no count of any
    column grows beyond one once the counts start at most one. The counters
    of [AnalyzeWhereExpr] start at zero, so they never leave 0 and 1. *)
Theorem X6_counters_stay_bounded s e st ws :
  PTExpr_Analyze e (where_state_of s) = Some (st, ws) →
  counters_bounded (op_counters_ ws)
  ∧ length (op_counters_ ws) = PTDmlStmt.num_columns s.
Proof.
  intros H. split.
  - eapply PTExpr_Analyze_bounded; [done |]. simpl.
    apply Forall_replicate. simpl. lia.
  - apply PTExpr_Analyze_shape in H as (Hlen & _). simpl in Hlen.
    by rewrite length_replicate in Hlen.
Qed.

(** [SELECT ... FROM T WHERE h = 5 AND c > 3 AND r = 1], which fails on [r]
    after counting it. *)
Lemma X6_witness :
  counters_bounded [counter 0 0 1; counter 1 0 0; zero_counter; counter 0 0 1]
  ∧ length [counter 0 0 1; counter 1 0 0; zero_counter; counter 0 0 1] = 4.
Proof.
  apply (X6_counters_stay_bounded
           (stmt_T false None [None] [])
           (PTLogicAnd 3
              (PTLogicAnd 3 (cmp YQL_OP_EQUAL col_h 5)
                 (cmp YQL_OP_GREATER_THAN col_c 3))
              (cmp YQL_OP_EQUAL col_r 1))
           (NonKeyColumnInWhere 7)
           (state_T false [Some (col_op YQL_OP_EQUAL col_h 5)]
              [col_op YQL_OP_GREATER_THAN col_c 3]
              [counter 0 0 1; counter 1 0 0; zero_counter; counter 0 0 1])).
  reflexivity.
Defined.

(** X7: every comparison of an accepted expression is recorded exactly once.
    When every key slot that is initialised before the walk belongs to a
    column with a recorded EQ (as when all slots are empty), an accepted walk
    adds to the filters and to the initialised key slots, together, exactly
    as many entries as the expression has comparisons. *)
Theorem X7_walk_records_every_comparison e st st' :
  PTExpr_Analyze e st = Some (OK, st') →
  slots_recorded st →
  slots_recorded st'
  ∧ length (ops_ st') + length (filled_slots (key_ops_ st'))
    = length (ops_ st) + length (filled_slots (key_ops_ st)) + leaf_count e.
Proof.
  revert st st'.
  induction e as [rel col v | l lhs IHl rhs IHr]; intros st st' H Hrec; simpl in H.
  - destruct (AnalyzeColumnOp_conserves _ _ _ _ _ H Hrec) as [Hrec' Hlen].
    split; [done |]. simpl. lia.
  - destruct (PTExpr_Analyze lhs st) as [[s1 st1] |] eqn:Hl; [| done].
    destruct s1; simplify_eq.
    destruct (IHl _ _ Hl Hrec) as [Hrec1 Hlen1].
    destruct (IHr _ _ H Hrec1) as [Hrec2 Hlen2].
    split; [done |]. simpl. lia.
Qed.

(** [WHERE h2 = 7 AND c > 3 AND h1 = 1] in a read statement on [U]. *)
Lemma X7_witness :
  let st' := state_T false
               [Some (col_op YQL_OP_EQUAL col_h1 1); Some (col_op YQL_OP_EQUAL col_h2 7)]
               [col_op YQL_OP_GREATER_THAN col_c2 3]
               [counter 0 0 1; counter 0 0 1; counter 1 0 0] in
  slots_recorded st'
  ∧ length (ops_ st') + length (filled_slots (key_ops_ st')) = 0 + 0 + 3.
Proof.
  apply (X7_walk_records_every_comparison
           (PTLogicAnd 3
              (PTLogicAnd 3 (cmp YQL_OP_EQUAL col_h2 7)
                 (cmp YQL_OP_GREATER_THAN col_c2 3))
              (cmp YQL_OP_EQUAL col_h1 1))
           (state_T false [None; None] [] (replicate 3 zero_counter))).
  - reflexivity.
  - intros [| [| idx]] o Ho; simpl in Ho; discriminate Ho.
Defined.

End ColumnOpTable.

(** ** WHERE clauses, continued *)

Section WhereClauseShape.
Import PTDmlStmt.

Lemma filter_length_Forall {A} (P : A → Prop) `{!∀ x, Decision (P x)} (l : list A) :
  length (filter P l) = length l ↔ Forall P l.
Proof.
  induction l as [| x l IH]; [done |].
  destruct (decide (P x)) as [HP | HP].
  - rewrite filter_cons_True by done. simpl. rewrite Forall_cons.
    split; [intros Hlen; split; [done | apply IH; lia] | intros [_ Hall]].
    f_equal. by apply IH.
  - rewrite filter_cons_False by done. simpl. rewrite Forall_cons.
    pose proof (length_filter P l). split; [lia | tauto].
Qed.

Lemma push_front_filled_suffix key_ops n ops ops' :
  push_front_filled key_ops n ops = Some ops' → ops `suffix_of` ops'.
Proof.
  revert ops. induction n as [| n IH]; intros ops H; simpl in H.
  - by simplify_eq.
  - destruct (key_ops !! n) as [[o |] |]; simpl in H; [| by apply IH | done].
    apply IH in H. etrans; [| done]. by apply suffix_cons_r.
Qed.

(** The three shapes of a statement [AnalyzeWhereExpr] returns: what the walk
    left; that with the key slots resized to the hash columns (an accepted
    static-only write); or the filters with the hash slots in front and no
    key slot (an accepted read). *)
Lemma AnalyzeWhereExpr_result s e st s' :
  AnalyzeWhereExpr s e = Some (st, s') →
  ∃ st0 ws, PTExpr_Analyze e (where_state_of s) = Some (st0, ws)
    ∧ (ok st = false → ok st0 = true → st = MissingKeyCondition (PTExpr_loc e))
    ∧ (ok st0 = false → st = st0)
    ∧ (s' = after_walk s ws
       ∨ (st = OK ∧ write_only_ s = true ∧ StaticColumnArgsOnly s = Some true
          ∧ s' = set_key_where_ops (after_walk s ws)
                   (resize (num_hash_key_columns_ s) None (WhereExprState.key_ops_ ws)))
       ∨ (st = OK ∧ write_only_ s = false
          ∧ ∃ ops, push_front_filled (WhereExprState.key_ops_ ws)
                     (num_hash_key_columns_ s) (WhereExprState.ops_ ws) = Some ops
                   ∧ s' = set_key_where_ops (set_where_ops s ops) [])).
Proof.
  intros H. unfold AnalyzeWhereExpr in H.
  change (PTExpr_Analyze e _) with (PTExpr_Analyze e (where_state_of s)) in H.
  destruct (PTExpr_Analyze e (where_state_of s)) as [[st0 ws] |]; [| done].
  exists st0, ws. split; [done |].
  simpl in H. fold (after_walk s ws) in H.
  change (StaticColumnArgsOnly (after_walk s ws)) with (StaticColumnArgsOnly s) in H.
  destruct st0; simpl in H; [| simplify_eq; by repeat split; auto].
  destruct (write_only_ s) eqn:Hw.
  - destruct (any_from _ _ 0 _) as [missing |]; simpl in H; [| done].
    destruct missing; [simplify_eq; by repeat split; auto |].
    destruct (count_from _ _ _ _ 0) as [range_keys |]; simpl in H; [| done].
    destruct (StaticColumnArgsOnly s) as [static_only |] eqn:Hso; simpl in H; [| done].
    destruct static_only.
    + destruct (negb _ && negb _); [simplify_eq; by repeat split; auto |].
      destruct (range_keys =? 0); simplify_eq; [| by repeat split; auto].
      split; [done |]. split; [done |]. right. left. by repeat split.
    + destruct (negb _); simplify_eq; by repeat split; auto.
  - destruct (any_from _ _ 0 _) as [incomplete |]; simpl in H; [| done].
    destruct incomplete; [| simplify_eq; by repeat split; auto].
    destruct (push_front_filled _ _ _) as [ops |] eqn:Hops; simpl in H; [| done].
    simplify_eq. split; [done |]. split; [done |].
    right. right. repeat split. by exists ops.
Qed.

(** X9: the analysis of a write statement never touches the filters, whether
    it succeeds or fails. *)
Theorem X9_write_keeps_filters s e st s' :
  write_only_ s = true →
  AnalyzeWhereExpr s e = Some (st, s') →
  where_ops_ s' = where_ops_ s.
Proof.
  intros Hw H.
  destruct (AnalyzeWhereExpr_result _ _ _ _ H)
    as (st0 & ws & Hwalk & _ & _ & Hshape).
  apply PTExpr_Analyze_write_ops in Hwalk; [| done]. simpl in Hwalk.
  destruct Hshape as [-> | [(_ & _ & _ & ->) | (_ & ? & _)]]; [done | done | congruence].
Qed.

(** [UPDATE T SET s = 1 WHERE h = 5], with a filter left from before. *)
Lemma X9_witness :
  where_ops_ (stmt_T true (Some [None; None; arg col_s; None])
                [Some (col_op YQL_OP_EQUAL col_h 5)]
                [col_op YQL_OP_GREATER_THAN col_c 3])
  = [col_op YQL_OP_GREATER_THAN col_c 3].
Proof.
  apply (X9_write_keeps_filters
           (stmt_T true (Some [None; None; arg col_s; None]) [None; None]
              [col_op YQL_OP_GREATER_THAN col_c 3])
           (cmp YQL_OP_EQUAL col_h 5) OK); reflexivity.
Defined.

(** X11: no analysis of a WHERE expression, of a read or of a write, accepted
    or rejected, drops a filter the statement already has: the filters before
    are a sublist, in order, of the filters after. *)
Theorem X11_filters_never_dropped s e st s' :
  AnalyzeWhereExpr s e = Some (st, s') →
  where_ops_ s `sublist_of` where_ops_ s'.
Proof.
  intros H.
  destruct (AnalyzeWhereExpr_result _ _ _ _ H)
    as (st0 & ws & Hwalk & _ & _ & Hshape).
  apply PTExpr_Analyze_shape in Hwalk as (_ & _ & _ & [k Hk] & _). simpl in Hk.
  assert (where_ops_ s `sublist_of` WhereExprState.ops_ ws) as Hsub.
  { rewrite Hk. by apply sublist_inserts_r. }
  destruct Hshape as [-> | [(_ & _ & _ & ->) | (_ & _ & ops & Hops & ->)]];
    [done | done |].
  simpl. apply push_front_filled_suffix in Hops as [k' ->].
  by apply sublist_inserts_l.
Qed.

(** [SELECT ... FROM U WHERE c > 3 AND h2 = 7], with a filter left from
    before. *)
Lemma X11_witness :
  [col_op YQL_OP_LESS_THAN col_c2 9]
    `sublist_of` [col_op YQL_OP_EQUAL col_h2 7; col_op YQL_OP_LESS_THAN col_c2 9;
                  col_op YQL_OP_GREATER_THAN col_c2 3].
Proof.
  apply (X11_filters_never_dropped
           (stmt_U false None [None; None] [col_op YQL_OP_LESS_THAN col_c2 9])
           (PTLogicAnd 3 (cmp YQL_OP_GREATER_THAN col_c2 3) (cmp YQL_OP_EQUAL col_h2 7))
           OK
           (stmt_U false None []
              [col_op YQL_OP_EQUAL col_h2 7; col_op YQL_OP_LESS_THAN col_c2 9;
               col_op YQL_OP_GREATER_THAN col_c2 3])).
  reflexivity.
Defined.

Lemma eq_in_slots_initially s : eq_in_slots (where_state_of s).
Proof.
  intros idx c Hc Hpos. simpl in Hc.
  apply lookup_replicate in Hc as [-> _]. simpl in Hpos. lia.
Qed.

(** After an accepted walk of a write statement, every key column whose
    counter records an EQ has that EQ in its key slot. *)
Lemma write_walk_slots s e ws idx :
  write_only_ s = true →
  PTExpr_Analyze e (where_state_of s) = Some (OK, ws) →
  idx < num_columns s →
  (∀ c, WhereExprState.op_counters_ ws !! idx = Some c → eq_count c ≠ 0) →
  eq_slot (WhereExprState.key_ops_ ws) idx.
Proof.
  intros Hw Hwalk Hidx Hrec.
  pose proof (PTExpr_Analyze_shape _ _ _ _ Hwalk) as (Hlen & _).
  simpl in Hlen. rewrite length_replicate in Hlen.
  destruct (lookup_lt_is_Some_2 (WhereExprState.op_counters_ ws) idx) as [c Hc];
    [lia |].
  apply (PTExpr_Analyze_eq_in_slots e (where_state_of s) ws Hw Hwalk
           (eq_in_slots_initially s) idx c Hc).
  specialize (Hrec c Hc). lia.
Qed.

(** The count of clustering columns with an EQ is the number of clustering
    columns exactly when each of them has one. *)
Lemma range_eq_count_full counters nh nk :
  nh ≤ nk → nk ≤ length counters →
  range_eq_count counters nh nk = nk - nh ↔
  ∀ idx c, nh ≤ idx < nk → counters !! idx = Some c → eq_count c ≠ 0.
Proof.
  intros Hhk Hkc. unfold range_eq_count.
  assert (length (take (nk - nh) (drop nh counters)) = nk - nh) as Hlen.
  { rewrite length_take, length_drop. lia. }
  rewrite <- Hlen at 2. rewrite filter_length_Forall, Forall_forall. split.
  - intros Hall idx c Hidx Hc. apply Hall, elem_of_window.
    exists idx. split; [lia | done].
  - intros Hall c (idx & Hidx & Hc)%elem_of_window.
    apply (Hall idx c); [lia | done].
Qed.

Lemma hash_check_passes counters nh :
  nh ≤ length counters →
  existsb (λ c, eq_count c =? 0) (take nh counters) = false ↔
  ∀ idx c, idx < nh → counters !! idx = Some c → eq_count c ≠ 0.
Proof.
  intros Hlen. rewrite <- not_true_iff_false, existsb_take. split.
  - intros Hno idx c Hidx Hc Hzero. apply Hno. exists idx, c.
    by rewrite Hzero.
  - intros Hall (idx & c & Hidx & Hc & Hzero). apply Nat.eqb_eq in Hzero.
    by apply (Hall idx c).
Qed.

(** X8: when the analysis of a write statement succeeds, the key slot of
    every hash column holds an EQ on that column; and either the key slot of
    every key column does, or the write is static-only and the key slots
    have been cut down to the hash columns. *)
Theorem X8_write_success_key_slots s e s' :
  write_only_ s = true →
  num_hash_key_columns_ s ≤ num_key_columns_ s →
  num_key_columns_ s ≤ num_columns s →
  AnalyzeWhereExpr s e = Some (OK, s') →
  (∀ idx, idx < num_hash_key_columns_ s → eq_slot (key_where_ops_ s') idx)
  ∧ ((StaticColumnArgsOnly s = Some true
      ∧ length (key_where_ops_ s') = num_hash_key_columns_ s)
     ∨ (∀ idx, idx < num_key_columns_ s → eq_slot (key_where_ops_ s') idx)).
Proof.
  intros Hw Hhk Hkc H.
  destruct (AnalyzeWhereExpr_result _ _ _ _ H) as (st0 & ws & Hwalk & _ & Hfail & _).
  destruct st0; [| by specialize (Hfail eq_refl)]. clear Hfail.
  pose proof (PTExpr_Analyze_shape _ _ _ _ Hwalk) as (Hlen & _).
  simpl in Hlen. rewrite length_replicate in Hlen.
  rewrite (AnalyzeWhereExpr_write s e ws Hw Hhk Hkc Hwalk) in H.
  set (nh := num_hash_key_columns_ s) in *.
  set (nk := num_key_columns_ s) in *.
  set (counters := WhereExprState.op_counters_ ws) in *.
  destruct (existsb _ (take nh counters)) eqn:Hhash; [done |].
  rewrite hash_check_passes in Hhash by lia.
  assert (∀ idx, idx < nh → eq_slot (WhereExprState.key_ops_ ws) idx) as Hslots.
  { intros idx Hidx. apply (write_walk_slots s e); [done | done | lia |].
    intros c Hc. by apply (Hhash idx). }
  assert (range_eq_count counters nh nk = nk - nh →
          ∀ idx, idx < nk → eq_slot (WhereExprState.key_ops_ ws) idx) as Hfull.
  { intros Hr idx Hidx. destruct (decide (idx < nh)); [by apply Hslots |].
    apply (write_walk_slots s e); [done | done | lia |].
    intros c Hc. rewrite range_eq_count_full in Hr by lia.
    apply (Hr idx); [lia | done]. }
  destruct (StaticColumnArgsOnly s) as [[|] |] eqn:Hso; simpl in H; [| | done].
  - destruct (Nat.eqb_spec (range_eq_count counters nh nk) (nk - nh)) as [Hr | Hr];
      destruct (Nat.eqb_spec (range_eq_count counters nh nk) 0) as [Hz | Hz];
      simpl in H; simplify_eq; simpl.
    + split; [| left; by rewrite length_resize].
      intros idx Hidx. destruct (Hslots idx Hidx) as (o & Ho & ?).
      exists o. rewrite lookup_resize; [done | done |]. by apply lookup_lt_Some in Ho.
    + split; [done |]. right. by apply Hfull.
    + split; [| left; by rewrite length_resize].
      intros idx Hidx. destruct (Hslots idx Hidx) as (o & Ho & ?).
      exists o. rewrite lookup_resize; [done | done |]. by apply lookup_lt_Some in Ho.
  - destruct (Nat.eqb_spec (range_eq_count counters nh nk) (nk - nh)) as [Hr | Hr];
      simpl in H; simplify_eq; simpl.
    split; [done |]. right. by apply Hfull.
Qed.

(** [UPDATE T SET r = 1 WHERE h = 5 AND c = 4] *)
Lemma X8_witness :
  let key_ops := [Some (col_op YQL_OP_EQUAL col_h 5); Some (col_op YQL_OP_EQUAL col_c 4)] in
  let args := Some [None; None; None; arg col_r] in
  (∀ idx, idx < 1 → eq_slot key_ops idx)
  ∧ ((StaticColumnArgsOnly (stmt_T true args [None; None] []) = Some true
      ∧ length key_ops = 1)
     ∨ (∀ idx, idx < 2 → eq_slot key_ops idx)).
Proof.
  apply (X8_write_success_key_slots
           (stmt_T true (Some [None; None; None; arg col_r]) [None; None] [])
           (PTLogicAnd 3 (cmp YQL_OP_EQUAL col_h 5) (cmp YQL_OP_EQUAL col_c 4))
           (stmt_T true (Some [None; None; None; arg col_r])
              [Some (col_op YQL_OP_EQUAL col_h 5); Some (col_op YQL_OP_EQUAL col_c 4)]
              [])).
  - reflexivity.
  - vm_compute. lia.
  - vm_compute. lia.
  - reflexivity.
Defined.

(** X12: a write that is not static-only, such as one whose column arguments
    are still empty after [Analyze], is accepted exactly when every key
    column, hash or clustering, carries an EQ; otherwise it fails with
    [MissingKeyCondition]. Either way the statement is left as the walk
    wrote it. *)
Theorem X12_full_key_required s e ws :
  write_only_ s = true →
  num_hash_key_columns_ s ≤ num_key_columns_ s →
  num_key_columns_ s ≤ num_columns s →
  StaticColumnArgsOnly s = Some false →
  PTExpr_Analyze e (where_state_of s) = Some (OK, ws) →
  ∃ st, AnalyzeWhereExpr s e = Some (st, after_walk s ws)
    ∧ (st = OK ∨ st = MissingKeyCondition (PTExpr_loc e))
    ∧ (st = OK ↔
       ∀ idx c, idx < num_key_columns_ s →
                WhereExprState.op_counters_ ws !! idx = Some c → eq_count c ≠ 0).
Proof.
  intros Hw Hhk Hkc Hso Hwalk.
  pose proof (PTExpr_Analyze_shape _ _ _ _ Hwalk) as (Hlen & _).
  simpl in Hlen. rewrite length_replicate in Hlen.
  rewrite (AnalyzeWhereExpr_write s e ws Hw Hhk Hkc Hwalk), Hso.
  set (nh := num_hash_key_columns_ s) in *.
  set (nk := num_key_columns_ s) in *.
  set (counters := WhereExprState.op_counters_ ws) in *.
  destruct (existsb _ (take nh counters)) eqn:Hhash.
  - eexists. split; [done |]. split; [by right |]. split; [done |].
    intros Hall. exfalso.
    apply existsb_take in Hhash as (idx & c & Hidx & Hc & Hzero).
    apply Nat.eqb_eq in Hzero. apply (Hall idx c); [lia | done | done].
  - rewrite hash_check_passes in Hhash by lia. simpl.
    destruct (Nat.eqb_spec (range_eq_count counters nh nk) (nk - nh)) as [Hr | Hr];
      simpl.
    + eexists. split; [done |]. split; [by left |]. split; [| done].
      intros _ idx c Hidx Hc. destruct (decide (idx < nh)); [by apply (Hhash idx) |].
      rewrite range_eq_count_full in Hr by lia.
      apply (Hr idx); [lia | done].
    + eexists. split; [done |]. split; [by right |]. split; [done |].
      intros Hall. exfalso. apply Hr.
      apply range_eq_count_full; [done | lia |].
      intros idx c Hidx Hc. apply (Hall idx c); [lia | done].
Qed.

(** A write on [T] straight after [Analyze], with [WHERE h = 5]: the
    clustering column [c] carries no EQ. *)
Lemma X12_witness :
  ∃ st s',
    AnalyzeWhereExpr (Analyze (stmt_T true None [None; None] [])).2
      (cmp YQL_OP_EQUAL col_h 5) = Some (st, s')
    ∧ st = MissingKeyCondition 7.
Proof.
  destruct (X12_full_key_required
              (Analyze (stmt_T true None [None; None] [])).2
              (cmp YQL_OP_EQUAL col_h 5)
              (state_T true [Some (col_op YQL_OP_EQUAL col_h 5); None] []
                 [counter 0 0 1; zero_counter; zero_counter; zero_counter]))
    as (st & Hrun & [Hok | Hmissing] & Hiff).
  - reflexivity.
  - vm_compute. lia.
  - vm_compute. lia.
  - reflexivity.
  - reflexivity.
  - exfalso. apply (proj1 Hiff Hok 1 zero_counter); [vm_compute; lia | reflexivity | reflexivity].
  - exists st. eexists. split; [exact Hrun | exact Hmissing].
Defined.

(** X10: an accepted read with a WHERE clause ends either without key slots
    or with one initialised key slot for every hash column: a read is a scan
    or a lookup by the complete hash key, never by a part of it. *)
Theorem X10_read_all_or_nothing s e s' :
  write_only_ s = false →
  AnalyzeWhereClause s (Some e) = Some (OK, s') →
  key_where_ops_ s' = []
  ∨ (length (key_where_ops_ s') = num_hash_key_columns_ s
     ∧ ∀ idx, idx < num_hash_key_columns_ s →
              ∃ o, key_where_ops_ s' !! idx = Some (Some o)).
Proof.
  intros Hw H. unfold AnalyzeWhereClause in H. rewrite Hw in H.
  set (s1 := set_key_where_ops s _) in H.
  assert (length (key_where_ops_ s1) = num_hash_key_columns_ s) as Hlen1
    by apply length_resize.
  destruct (AnalyzeWhereExpr_result _ _ _ _ H) as (st0 & ws & Hwalk & _ & Hfail & _).
  destruct st0; [| by specialize (Hfail eq_refl)]. clear Hfail.
  pose proof (PTExpr_Analyze_shape _ _ _ _ Hwalk) as (_ & Hk & _). simpl in Hk.
  rewrite (AnalyzeWhereExpr_read s1 e ws) in H; [| done | simpl in *; lia | done].
  change (num_hash_key_columns_ s1) with (num_hash_key_columns_ s) in H.
  destruct (existsb _ _) eqn:Hincomplete; simplify_eq; simpl; [by left |].
  right. split; [simpl in *; lia |].
  intros idx Hidx.
  destruct (lookup_lt_is_Some_2 (WhereExprState.key_ops_ ws) idx) as [slot Hslot];
    [simpl in *; lia |].
  destruct slot as [o |]; [by exists o |].
  apply not_true_iff_false in Hincomplete. exfalso. apply Hincomplete.
  apply existsb_take. by exists idx, None.
Qed.

(** [SELECT ... FROM U WHERE h1 = 1 AND h2 = 7] *)
Lemma X10_witness :
  let key_ops := [Some (col_op YQL_OP_EQUAL col_h1 1); Some (col_op YQL_OP_EQUAL col_h2 7)] in
  key_ops = []
  ∨ (length key_ops = 2 ∧ ∀ idx, idx < 2 → ∃ o, key_ops !! idx = Some (Some o)).
Proof.
  apply (X10_read_all_or_nothing (stmt_U false None [] [])
           (PTLogicAnd 3 (cmp YQL_OP_EQUAL col_h1 1) (cmp YQL_OP_EQUAL col_h2 7))
           (stmt_U false None
              [Some (col_op YQL_OP_EQUAL col_h1 1); Some (col_op YQL_OP_EQUAL col_h2 7)]
              [])); reflexivity.
Defined.

End WhereClauseShape.

(** ** Table lookup, continued *)

Section TableLookupCatalog.
Import PTDmlStmt.

Variable is_system : YBTableName → bool.
Variable FLAGS_yb_system_namespace_readonly : bool.
Variable ToInternalDataType : DataType → InternalType.
Variable MapSymbol : SemContext → string → ColumnDesc → Status * SemContext.

(** The loop over the columns, when no insertion into the symbol table
    fails: the entries before [idx] are kept, the entry of every column of
    the schema is initialised. *)
Lemma init_columns_OK sem_context cols idx nk nh tc tc' sem_context' :
  init_columns ToInternalDataType MapSymbol sem_context cols idx nk nh tc
  = (OK, tc', sem_context') →
  length tc' = length tc
  ∧ (∀ j, j < idx → tc' !! j = tc !! j)
  ∧ (∀ k col col_id, cols !! k = Some (col, col_id) → idx + k < length tc →
       tc' !! (idx + k) =
       Some (Some {| index := idx + k;
                     id_ := col_id;
                     is_hash := bool_decide (idx + k < nh);
                     is_primary := bool_decide (idx + k < nk);
                     is_static := col_is_static col;
                     sql_type := col_type col;
                     type_id := ToInternalDataType (col_type col) |})).
Proof.
  revert sem_context idx tc.
  induction cols as [| [col col_id] cols IH]; intros sem_context idx tc H; simpl in H.
  - simplify_eq. split; [done |]. split; [done |].
    intros k ? ? Hk. by rewrite lookup_nil in Hk.
  - destruct (MapSymbol sem_context (col_name col) _) as [[|] sem1]; [| done].
    apply IH in H as (Hlen & Hbefore & Hcols).
    rewrite length_insert in Hlen. split; [done |]. split.
    + intros j Hj. rewrite Hbefore by lia. apply list_lookup_insert_ne. lia.
    + intros [| k] c cid Hk Hin; simpl in Hk.
      * simplify_eq. rewrite Nat.add_0_r in *. rewrite Hbefore by lia.
        by apply list_lookup_insert_eq.
      * replace (idx + S k) with (S idx + k) in * by lia.
        apply Hcols; [done |]. by rewrite length_insert.
Qed.

(** What a successful [LookupTable] leaves in the statement. *)
Lemma LookupTable_OK sem_context s s' sem_context' :
  LookupTable is_system FLAGS_yb_system_namespace_readonly ToInternalDataType
    MapSymbol sem_context s = (OK, s', sem_context') →
  ∃ table,
    GetTableDesc sem_context (resolved_name sem_context s) = Some table
    ∧ is_system (resolved_name sem_context s) && write_only_ s
      && FLAGS_yb_system_namespace_readonly = false
    ∧ table_ s' = Some table
    ∧ is_system_ s' = is_system (resolved_name sem_context s)
    ∧ num_key_columns_ s' = num_key_columns (schema table)
    ∧ num_hash_key_columns_ s' = num_hash_key_columns (schema table)
    ∧ table_columns_ s' =
      imap (λ idx c, Some (descriptor_of ToInternalDataType (schema table) idx c.1 c.2))
        (columns (schema table)).
Proof.
  unfold LookupTable.
  assert ((if negb (has_namespace (name_ s))
           then set_namespace_name (name_ s) (CurrentKeyspace sem_context)
           else name_ s) = resolved_name sem_context s) as ->.
  { unfold resolved_name. by destruct (has_namespace (name_ s)). }
  simpl.
  destruct (is_system _ && write_only_ s && _); [done |].
  destruct (GetTableDesc sem_context (resolved_name sem_context s))
    as [table |]; simpl; [| done].
  destruct (init_columns _ _ _ _ _ _ _ _) as [[st tc] sem1] eqn:Hloop.
  intros H. simplify_eq. simpl.
  apply init_columns_OK in Hloop as (Hlen & _ & Hcols).
  rewrite length_resize in Hlen.
  exists table. repeat split; try done.
  apply list_eq. intros i. rewrite list_lookup_imap.
  destruct (columns (schema table) !! i) as [[col col_id] |] eqn:Hi; simpl.
  - apply (Hcols i col col_id Hi). rewrite length_resize.
    by apply lookup_lt_Some in Hi.
  - apply lookup_ge_None. apply lookup_ge_None in Hi. lia.
Qed.

(** X14: a successful [LookupTable] has passed the system-keyspace test and
    found the table; whatever columns the statement held before, its catalog
    is then the schema's columns in schema order, one initialised descriptor
    for each, with the schema's two key counts. *)
Theorem X14_lookup_builds_catalog sem_context s s' sem_context' :
  LookupTable is_system FLAGS_yb_system_namespace_readonly ToInternalDataType
    MapSymbol sem_context s = (OK, s', sem_context') →
  ∃ table,
    GetTableDesc sem_context (resolved_name sem_context s) = Some table
    ∧ is_system (resolved_name sem_context s) && write_only_ s
      && FLAGS_yb_system_namespace_readonly = false
    ∧ table_ s' = Some table
    ∧ num_key_columns_ s' = num_key_columns (schema table)
    ∧ num_hash_key_columns_ s' = num_hash_key_columns (schema table)
    ∧ num_columns s' = length (columns (schema table))
    ∧ table_columns_ s' =
      imap (λ idx c, Some (descriptor_of ToInternalDataType (schema table) idx c.1 c.2))
        (columns (schema table)).
Proof.
  intros H. apply LookupTable_OK in H
    as (table & Hfound & Hpass & Htable & _ & Hnk & Hnh & Hcols).
  exists table. repeat split; try done.
  unfold num_columns. by rewrite Hcols, length_imap.
Qed.

(** X15: in a schema whose hash columns are among its key columns, every
    descriptor a successful [LookupTable] builds sits at the position of its
    own index, is a hash column exactly when its index is below the number
    of hash columns, a primary column exactly when it is below the number of
    key columns, and is therefore primary whenever it is hash. *)
Theorem X15_descriptors_well_classified sem_context s s' sem_context' idx d :
  LookupTable is_system FLAGS_yb_system_namespace_readonly ToInternalDataType
    MapSymbol sem_context s = (OK, s', sem_context') →
  num_hash_key_columns_ s' ≤ num_key_columns_ s' →
  table_columns_ s' !! idx = Some (Some d) →
  index d = idx
  ∧ (is_hash d = true ↔ idx < num_hash_key_columns_ s')
  ∧ (is_primary d = true ↔ idx < num_key_columns_ s')
  ∧ (is_hash d = true → is_primary d = true)
  ∧ well_classified (num_hash_key_columns_ s') (num_key_columns_ s') (num_columns s') d.
Proof.
  intros H Hhk Hd. apply LookupTable_OK in H
    as (table & _ & _ & _ & _ & Hnk & Hnh & Hcols).
  assert (idx < num_columns s') as Hidx by by apply lookup_lt_Some in Hd.
  rewrite Hcols, list_lookup_imap in Hd.
  destruct (columns (schema table) !! idx) as [[col col_id] |]; simpl in Hd; [| done].
  simplify_eq. unfold well_classified. simpl.
  rewrite !bool_decide_eq_true, Hnh, Hnk in *.
  repeat split; (done || lia).
Qed.

End TableLookupCatalog.

(** [LookupTable] for [T] in a catalog that holds it. *)
Lemma X14_witness :
  ∃ table,
    GetTableDesc sem_ks (resolved_name sem_ks (PTDmlStmt.make name_T 1 2 true None))
    = Some table
    ∧ is_system_name (resolved_name sem_ks (PTDmlStmt.make name_T 1 2 true None))
      && true && true = false
    ∧ PTDmlStmt.table_ lookup_T_run.1.2 = Some table
    ∧ PTDmlStmt.num_key_columns_ lookup_T_run.1.2 = num_key_columns (schema table)
    ∧ PTDmlStmt.num_hash_key_columns_ lookup_T_run.1.2
      = num_hash_key_columns (schema table)
    ∧ PTDmlStmt.num_columns lookup_T_run.1.2 = length (columns (schema table))
    ∧ PTDmlStmt.table_columns_ lookup_T_run.1.2 =
      imap (λ idx c, Some (descriptor_of (λ t, t) (schema table) idx c.1 c.2))
        (columns (schema table)).
Proof.
  apply (X14_lookup_builds_catalog is_system_name true (λ t, t) map_symbol_ok
           sem_ks (PTDmlStmt.make name_T 1 2 true None)
           lookup_T_run.1.2 lookup_T_run.2).
  reflexivity.
Defined.

(** The descriptor of [h] in the catalog [LookupTable] builds for [T]. *)
Lemma X15_witness :
  index col_h = 0
  ∧ (is_hash col_h = true ↔ 0 < 1)
  ∧ (is_primary col_h = true ↔ 0 < 2)
  ∧ (is_hash col_h = true → is_primary col_h = true)
  ∧ well_classified 1 2 4 col_h.
Proof.
  apply (X15_descriptors_well_classified is_system_name true (λ t, t) map_symbol_ok
           sem_ks (PTDmlStmt.make name_T 1 2 true None)
           lookup_T_run.1.2 lookup_T_run.2 0 col_h).
  - reflexivity.
  - vm_compute. lia.
  - reflexivity.
Defined.

(** ** Vector accesses stay in range *)

Section InRange.
Import PTDmlStmt.

Lemma PTExpr_Analyze_returns e st :
  Forall (λ col,
            index col < length (WhereExprState.op_counters_ st)
            ∧ (is_hash col = true
               ∨ (is_primary col = true ∧ WhereExprState.write_only_ st = true) →
               index col < length (WhereExprState.key_ops_ st)))
    (leaf_columns e) →
  is_Some (PTExpr_Analyze e st).
Proof.
  revert st. induction e as [rel col v | l lhs IHl rhs IHr]; intros st Hcols; simpl in *.
  - apply Forall_singleton in Hcols as [Hc Hk].
    by apply AnalyzeColumnOp_returns.
  - apply Forall_app in Hcols as [Hl Hr].
    destruct (IHl st Hl) as [[s1 st1] Hlhs]. rewrite Hlhs.
    destruct s1; [| done].
    apply PTExpr_Analyze_shape in Hlhs as (Hc & Hk & Hw & _).
    apply IHr. by rewrite Hc, Hk, Hw.
Qed.

Lemma StaticColumnArgsOnly_returns s column_args :
  column_args_ s = Some column_args →
  column_args = [] ∨ num_key_columns_ s ≤ length column_args →
  is_Some (StaticColumnArgsOnly s).
Proof.
  intros Hargs Hlen. unfold StaticColumnArgsOnly. rewrite Hargs. simpl.
  destruct column_args as [| a0 rest]; [done |].
  destruct Hlen as [? | Hlen]; [done |].
  cbv beta iota.
  remember (a0 :: rest) as column_args eqn:Hshape. clear Hshape a0 rest Hargs.
  assert (is_Some (any_from IsInitialized column_args (num_hash_key_columns_ s)
                     (num_key_columns_ s - num_hash_key_columns_ s))) as [wr ->].
  { destruct (decide (num_hash_key_columns_ s ≤ num_key_columns_ s)).
    - rewrite any_from_existsb by lia. done.
    - by replace (num_key_columns_ s - num_hash_key_columns_ s) with 0 by lia. }
  simpl.
  destruct (static_scan_spec column_args (num_key_columns_ s)
              (length column_args - num_key_columns_ s) false false)
    as (flags & -> & _); [lia |].
  done.
Qed.

(** X16: no vector is read or written out of range. In a statement whose key
    counts fit its catalog, with column arguments that are empty or cover
    the key columns when it is a write, the analysis of a WHERE clause whose
    comparisons are on columns that agree with the layout of the table
    always returns a status. *)
Theorem X16_analysis_stays_in_range s e :
  num_hash_key_columns_ s ≤ num_key_columns_ s →
  num_key_columns_ s ≤ num_columns s →
  Forall (well_classified (num_hash_key_columns_ s) (num_key_columns_ s)
            (num_columns s)) (leaf_columns e) →
  (write_only_ s = true →
   ∃ column_args, column_args_ s = Some column_args
                  ∧ (column_args = [] ∨ num_key_columns_ s ≤ length column_args)) →
  is_Some (AnalyzeWhereClause s (Some e)).
Proof.
  intros Hhk Hkc Hcols Hargs. unfold AnalyzeWhereClause.
  destruct (write_only_ s) eqn:Hw.
  - set (s1 := set_key_where_ops s _).
    destruct (PTExpr_Analyze_returns e (where_state_of s1)) as [[st0 ws] Hwalk].
    { eapply Forall_impl; [exact Hcols |]. intros col (Hc & Hh & Hp). simpl.
      rewrite length_replicate, length_resize. split; [done |].
      intros [Hhash | [Hprim _]]; [specialize (Hh Hhash); lia | by apply Hp]. }
    destruct st0.
    + rewrite (AnalyzeWhereExpr_write s1 e ws); [| done | done | done | done].
      destruct (existsb _ _); [done |].
      change (StaticColumnArgsOnly s1) with (StaticColumnArgsOnly s).
      destruct (Hargs eq_refl) as (column_args & Hsome & Hlen).
      destruct (StaticColumnArgsOnly_returns s column_args Hsome Hlen) as [b ->].
      simpl. by repeat case_match.
    + by rewrite (AnalyzeWhereExpr_walk_failed s1 e _ ws Hwalk).
  - set (s1 := set_key_where_ops s _).
    destruct (PTExpr_Analyze_returns e (where_state_of s1)) as [[st0 ws] Hwalk].
    { eapply Forall_impl; [exact Hcols |]. intros col (Hc & Hh & Hp). simpl.
      rewrite length_replicate, length_resize, Hw. split; [done |].
      intros [Hhash | [_ ?]]; [by apply Hh | done]. }
    destruct st0.
    + rewrite (AnalyzeWhereExpr_read s1 e ws); [| done | | done].
      * by repeat case_match.
      * simpl. by rewrite length_resize.
    + by rewrite (AnalyzeWhereExpr_walk_failed s1 e _ ws Hwalk).
Qed.

(** [UPDATE T SET s = 1 WHERE h = 5 AND c > 3 AND r = 1] *)
Lemma X16_witness :
  is_Some
    (AnalyzeWhereClause (stmt_T true (Some [None; None; arg col_s; None]) [] [])
       (Some (PTLogicAnd 3
                (PTLogicAnd 3 (cmp YQL_OP_EQUAL col_h 5)
                   (cmp YQL_OP_GREATER_THAN col_c 3))
                (cmp YQL_OP_EQUAL col_r 1)))).
Proof.
  apply (X16_analysis_stays_in_range
           (stmt_T true (Some [None; None; arg col_s; None]) [] [])).
  - vm_compute. lia.
  - vm_compute. lia.
  - repeat constructor; vm_compute; (lia || discriminate).
  - intros _. exists [None; None; arg col_s; None].
    split; [reflexivity | right; vm_compute; lia].
Defined.

(** X13: without a WHERE clause a write fails with [MissingPartitionKey] and
    a read succeeds, and the statement is not touched. With one, whatever
    key slots the statement held before, a write is left with one slot for
    every key column, or, accepted as static-only, one for every hash
    column; a read is left with one slot for every hash column, or, accepted,
    with none. *)
Theorem X13_key_slot_vector s clause st s' :
  AnalyzeWhereClause s clause = Some (st, s') →
  match clause with
  | None =>
      s' = s ∧ st = (if write_only_ s then MissingPartitionKey (loc_ s) else OK)
  | Some _ =>
      if write_only_ s then
        length (key_where_ops_ s') = num_key_columns_ s
        ∨ (st = OK ∧ StaticColumnArgsOnly s = Some true
           ∧ length (key_where_ops_ s') = num_hash_key_columns_ s)
      else
        length (key_where_ops_ s') = num_hash_key_columns_ s
        ∨ (st = OK ∧ key_where_ops_ s' = [])
  end.
Proof.
  intros H. unfold AnalyzeWhereClause in H. destruct clause as [e |].
  - destruct (write_only_ s) eqn:Hw.
    all: set (s1 := set_key_where_ops s _) in H.
    all: destruct (AnalyzeWhereExpr_result _ _ _ _ H)
           as (st0 & ws & Hwalk & _ & _ & Hshape).
    all: apply PTExpr_Analyze_shape in Hwalk as (_ & Hk & _); simpl in Hk.
    all: rewrite length_resize in Hk.
    all: destruct Hshape as [-> | [(-> & Hw1 & Hso & ->) | (-> & Hw1 & ops & _ & ->)]];
           simpl in *; try congruence; auto.
    right. repeat split; [done |]. by rewrite length_resize.
  - destruct (write_only_ s); by simplify_eq.
Qed.

(** A read on [U] with [WHERE c > 3], from a statement that held four key
    slots. *)
Lemma X13_witness :
  length (key_where_ops_ (stmt_U false None [] [col_op YQL_OP_GREATER_THAN col_c2 3])) = 2
  ∨ (OK = OK
     ∧ key_where_ops_ (stmt_U false None [] [col_op YQL_OP_GREATER_THAN col_c2 3]) = []).
Proof.
  apply (X13_key_slot_vector
           (stmt_U false None [None; None; None; None] [])
           (Some (cmp YQL_OP_GREATER_THAN col_c2 3)) OK
           (stmt_U false None [] [col_op YQL_OP_GREATER_THAN col_c2 3])).
  reflexivity.
Defined.

End InRange.
